(** * Twitter gateway agent: a shallow embedding of [index.py]

    The repository is a four-stage batch pipeline (collect, filter and
    persist, score and digest, notify) driven by an orchestrator.  The
    embedding follows the source function by function:

    - Python [str] is [string]; characters are the code points below 256.
    - Python [int] is [Z].
    - A tweet (a JSON object) is a record holding the keys the program reads.
    - The file system, standard output and the webhook are an explicit
      [World] threaded through a small state-and-exception monad; what the
      three remote services answer is an [Env]. *)

From Stdlib Require Import ZArith Ascii String Lia.
From stdpp Require Import base decidable option list sorting strings pretty gmap fin_maps.

Local Open Scope Z_scope.

(** ** Data model *)

(** [tweet["user"]] *)
Record User := mkUser { screen_name : string }.

(** One element of [data["tweets"]]. *)
Record Tweet := mkTweet {
  id_str : string;
  user : User;
  full_text : string;
  favorite_count : Z;
  retweet_count : Z
}.

(** The dictionary returned by [analyze_tweet_relevance]. *)
Record Analysis := mkAnalysis {
  tweet : Tweet;
  tweet_url : string;
  score : Z;
  analysis : string
}.

(** ** Exceptions

    A Python expression that may raise evaluates to a [Result]. *)

Inductive Exn :=
  | IndexError | KeyError | ValueError | FileNotFoundError
  | JSONDecodeError | RequestException | APIError.

Inductive Result (A : Type) :=
  | Ok (a : A)
  | Raise (e : Exn).
Arguments Ok {A} _.
Arguments Raise {A} _.

Global Instance Result_ret : MRet Result := λ A a, Ok a.
Global Instance Result_bind : MBind Result := λ A B f r,
  match r with
  | Ok a => f a
  | Raise e => Raise e
  end.

(** [l[i]] for a list and a non-negative index. *)
Definition getitem {A} (l : list A) (i : nat) : Result A :=
  match l !! i with
  | Some x => Ok x
  | None => Raise IndexError
  end.

(** [d[k]] for a dictionary. *)
Definition getkey {A} (d : gmap string A) (k : string) : Result A :=
  match d !! k with
  | Some x => Ok x
  | None => Raise KeyError
  end.

(** ** The string methods the program calls *)

Definition LF : string := String "010" EmptyString.

(** [str.isspace] on the code points below 256: the characters that
    [str.strip()] removes. *)
Definition is_space (c : ascii) : bool :=
  match c with
  | "009" | "010" | "011" | "012" | "013"
  | "028" | "029" | "030" | "031" | " " | "133" | "160" => true
  | _ => false
  end%char.

(** The white space [int()] accepts around a literal: as [is_space] without
    the four separators U+001C to U+001F. *)
Definition is_int_space (c : ascii) : bool :=
  match c with
  | "009" | "010" | "011" | "012" | "013" | " " | "133" | "160" => true
  | _ => false
  end%char.

(** The value of a decimal digit, ["0"] (code 48) to ["9"] (code 57). *)
Definition digit_value (c : ascii) : option Z :=
  let code := Z.of_N (N_of_ascii c) in
  if (48 <=? code) && (code <=? 57) then Some (code - 48) else None.

(** [s.lstrip()] *)
Fixpoint lstrip (s : string) : string :=
  match s with
  | EmptyString => EmptyString
  | String c r => if is_space c then lstrip r else s
  end.

(** [s.rstrip()] *)
Fixpoint rstrip (s : string) : string :=
  match s with
  | EmptyString => EmptyString
  | String c r =>
      match rstrip r with
      | EmptyString => if is_space c then EmptyString else String c EmptyString
      | r' => String c r'
      end
  end.

(** [s.strip()] *)
Definition strip (s : string) : string := rstrip (lstrip s).

(** [s.split(sep)] for a separator of one character: the pieces between the
    occurrences of [sep], always at least one piece. *)
Fixpoint split (sep : ascii) (s : string) : list string :=
  match s with
  | EmptyString => [EmptyString]
  | String c r =>
      if Ascii.eqb c sep then EmptyString :: split sep r
      else match split sep r with
           | piece :: pieces => String c piece :: pieces
           | [] => [String c EmptyString]
           end
  end.

(** ** [int(s)] for a string, base ten

    Optional white space, an optional sign, decimal digits that single
    underscores may separate, optional white space; anything else is a
    [ValueError], and so is a literal of more than [int_max_str_digits]
    digits. *)

(** [sys.get_int_max_str_digits()], which the program leaves at its
    default. *)
Definition int_max_str_digits : nat := 4300.

Fixpoint skip_int_space (s : string) : string :=
  match s with
  | EmptyString => EmptyString
  | String c r => if is_int_space c then skip_int_space r else s
  end.

Fixpoint all_int_space (s : string) : bool :=
  match s with
  | EmptyString => true
  | String c r => is_int_space c && all_int_space r
  end.

(** Reads digits and underscores from the front of [s]: the value read so
    far, the number of digits, and what follows them; [None] on a doubled or
    a trailing underscore. *)
Fixpoint scan_digits (after_underscore : bool) (acc : Z) (digits : nat)
    (s : string) : option (Z * nat * string) :=
  match s with
  | EmptyString => if after_underscore then None else Some (acc, digits, s)
  | String c r =>
      match digit_value c with
      | Some d => scan_digits false (10 * acc + d) (S digits) r
      | None =>
          if Ascii.eqb c "_" then
            if after_underscore then None else scan_digits true acc digits r
          else
            if after_underscore then None else Some (acc, digits, s)
      end
  end.

(** [s[:1] == c] and [s[1:]] *)
Definition starts_with (c : ascii) (s : string) : bool :=
  match s with
  | String c' _ => Ascii.eqb c' c
  | EmptyString => false
  end.

Definition drop_first (s : string) : string :=
  match s with
  | String _ r => r
  | EmptyString => EmptyString
  end.

Definition int_of_digits (sign : Z) (body : string) : Result Z :=
  if starts_with "_" body then Raise ValueError
  else
    match scan_digits false 0 0 body with
    | None => Raise ValueError
    | Some (value, digits, rest) =>
        if Nat.eqb digits 0 then Raise ValueError
        else if negb (all_int_space rest) then Raise ValueError
        else if Nat.ltb int_max_str_digits digits then Raise ValueError
        else Ok (sign * value)
    end.

Definition int (s : string) : Result Z :=
  let body := skip_int_space s in
  if starts_with "+" body then int_of_digits 1 (drop_first body)
  else if starts_with "-" body then int_of_digits (-1) (drop_first body)
  else int_of_digits 1 body.

(** ** The world outside the program

    [requests.Response]: the status, the body as text, and the body decoded
    by [response.json()] (an object whose keys hold lists of tweets). *)
Record Response := mkResponse {
  status_code : Z;
  text : string;
  json : Result (gmap string (list Tweet))
}.

(** The JSON document posted to the webhook. *)
Record Embed := mkEmbed {
  title : string;
  description : string;
  color : Z
}.

Record Payload := mkPayload {
  content : string;
  embeds : list Embed
}.

(** What the program does not control: the answer of the source API to the
    [GET], the reply of the language model to the n-th completion request
    about a tweet, the answer of the webhook to a [POST], and the JSON codec
    of the standard library ([json.dump] and [json.load] on lists of
    tweets). *)
Record Env := mkEnv {
  source_api : Result Response;
  chat : nat → Tweet → Result string;
  webhook : Payload → Result Response;
  json_dump : list Tweet → string;
  json_load : string → Result (list Tweet)
}.

(** What the program changes: the files of the working directory, the lines
    printed, the payloads handed to [requests.post], the command lines
    started with [subprocess.run], and the number of completion requests
    made so far. *)
Record World := mkWorld {
  files : gmap string string;
  stdout : list string;
  posted : list Payload;
  spawned : list (list string);
  completions : nat
}.

(** A computation reads and changes the world and returns or raises. *)
Definition M (A : Type) : Type := World → Result A * World.

Global Instance M_ret : MRet M := λ A a w, (Ok a, w).
Global Instance M_bind : MBind M := λ A B f m w,
  match m w with
  | (Ok a, w') => f a w'
  | (Raise e, w') => (Raise e, w')
  end.

Definition lift {A} (r : Result A) : M A := λ w, (r, w).

(** The world after one more line, file, post, process or completion
    request. *)
Definition printed (line : string) (w : World) : World :=
  mkWorld (files w) (stdout w ++ [line]) (posted w) (spawned w) (completions w).

Definition written (path data : string) (w : World) : World :=
  mkWorld (<[path := data]> (files w)) (stdout w) (posted w) (spawned w)
    (completions w).

Definition posting (payload : Payload) (w : World) : World :=
  mkWorld (files w) (stdout w) (posted w ++ [payload]) (spawned w)
    (completions w).

Definition spawning (argv : list string) (w : World) : World :=
  mkWorld (files w) (stdout w) (posted w) (spawned w ++ [argv]) (completions w).

Definition completing (w : World) : World :=
  mkWorld (files w) (stdout w) (posted w) (spawned w) (S (completions w)).

(** [print(line)] *)
Definition print (line : string) : M unit := λ w, (Ok tt, printed line w).

(** [open(path, "w")] followed by one write of [data]. *)
Definition write_file (path data : string) : M unit := λ w,
  (Ok tt, written path data w).

(** What a file opened in text mode gives to read: a carriage return
    followed by a line feed, and a carriage return alone, arrive as one line
    feed (universal newlines).  Writing in text mode changes nothing where
    the line separator is the line feed. *)
Fixpoint universal_newlines (data : string) : string :=
  match data with
  | EmptyString => EmptyString
  | String "013" (String "010" rest) => String "010" (universal_newlines rest)
  | String "013" rest => String "010" (universal_newlines rest)
  | String c rest => String c (universal_newlines rest)
  end.

(** [open(path, "r")] followed by reading the whole file. *)
Definition read_file (path : string) : M string := λ w,
  match files w !! path with
  | Some data => (Ok (universal_newlines data), w)
  | None => (Raise FileNotFoundError, w)
  end.

(** [os.path.exists(path)] *)
Definition path_exists (path : string) : M bool := λ w,
  (Ok (bool_decide (is_Some (files w !! path))), w).

Section program.
Variable env : Env.

(** ** fetch_tweets.py *)

Definition MIN_LIKES : Z := 10.

Definition fetch_list_tweets : M (list Tweet) :=
  response ← lift (source_api env);
  if status_code response =? 200 then
    data ← lift (json response);
    lift (getkey data "tweets")
  else
    print ("Error fetching tweets: " +:+ pretty (status_code response));;
    print (text response);;
    mret [].

(** [[tweet for tweet in tweets if tweet["favorite_count"] >= min_likes]] *)
Definition filter_tweets_by_engagement (tweets : list Tweet) (min_likes : Z)
  : list Tweet :=
  List.filter (λ tweet, favorite_count tweet >=? min_likes) tweets.

Definition save_tweets_for_analysis (tweets : list Tweet) : M unit :=
  write_file "tweets_for_analysis.json" (json_dump env tweets);;
  print ("Saved " +:+ pretty (length tweets) +:+ " tweets for analysis").

Definition fetch_tweets_main : M unit :=
  all_tweets ← fetch_list_tweets;
  print ("Fetched " +:+ pretty (length all_tweets) +:+ " tweets from list");;
  let filtered_tweets := filter_tweets_by_engagement all_tweets MIN_LIKES in
  print ("Filtered to " +:+ pretty (length filtered_tweets)
         +:+ " tweets with " +:+ pretty MIN_LIKES +:+ "+ likes");;
  save_tweets_for_analysis filtered_tweets.

(** ** analyze_tweets.py *)

Definition load_tweets : M (list Tweet) :=
  data ← read_file "tweets_for_analysis.json";
  lift (json_load env data).

(** [client.chat.completions.create(...)] with the prompt built from the
    tweet, then [response.choices[0].message.content]. *)
Definition chat_completion (tweet : Tweet) : M string := λ w,
  (chat env (completions w) tweet, completing w).

(** The body of the [try]:
    [score_line = analysis.split('\n')[0]] and
    [int(score_line.strip().split(':')[1].strip().split('/')[0])]. *)
Definition extract_score_try (analysis : string) : Result Z :=
  score_line ← getitem (split "010" analysis) 0;
  after_colon ← getitem (split ":" (strip score_line)) 1;
  token ← getitem (split "/" (strip after_colon)) 0;
  int token.

(** The [try] with its bare [except], which sets the score to 0. *)
Definition extract_score (analysis : string) : Z :=
  match extract_score_try analysis with
  | Ok score => score
  | Raise _ => 0
  end.

(** What [analyze_tweet_relevance] returns once the model has replied. *)
Definition analysis_of_reply (tweet : Tweet) (analysis : string) : Analysis :=
  let username := screen_name (user tweet) in
  let tweet_url :=
    "https://twitter.com/" +:+ username +:+ "/status/" +:+ id_str tweet in
  mkAnalysis tweet tweet_url (extract_score analysis) analysis.

Definition analyze_tweet_relevance (tweet : Tweet) : M Analysis :=
  analysis ← chat_completion tweet;
  mret (analysis_of_reply tweet analysis).

(** [sorted(items, key=key, reverse=True)]: Python's sort is stable, and
    with [reverse=True] it puts the greatest key first while items with
    equal keys keep their input order.  [insert_desc x l] puts [x], which
    stood before every item of [l] in the input, behind the items of a
    greater key and in front of the others. *)
Fixpoint insert_desc {A} (key : A → Z) (x : A) (l : list A) : list A :=
  match l with
  | [] => [x]
  | y :: l' => if key x <? key y then y :: insert_desc key x l' else x :: l
  end.

Definition sorted_reverse {A} (key : A → Z) (items : list A) : list A :=
  foldr (insert_desc key) [] items.

Definition relevant_tweets (analyses : list Analysis) : list Analysis :=
  sorted_reverse score (List.filter (λ a, score a >=? 7) analyses).

(** The four [digest += ...] of one turn of the loop. *)
Definition digest_section (item : Analysis) : string :=
  let username := screen_name (user (tweet item)) in
  ("## @" +:+ username +:+ ": " +:+ pretty (score item)
     +:+ "/10 Relevance" +:+ LF +:+ LF)
  +:+ (full_text (tweet item) +:+ LF +:+ LF)
  +:+ ("[View Tweet](" +:+ tweet_url item +:+ ")" +:+ LF +:+ LF)
  +:+ ("---" +:+ LF +:+ LF).

Definition no_relevant_tweets : string :=
  "No highly relevant tweets found in the latest batch.".

Definition digest_header : string :=
  "# Relevant Twitter Content Digest" +:+ LF +:+ LF.

Definition generate_digest (analyses : list Analysis) : string :=
  match relevant_tweets analyses with
  | [] => no_relevant_tweets
  | relevant =>
      fold_left (λ digest item, digest +:+ digest_section item)
        relevant digest_header
  end.

Definition analyze_tweets_main : M unit :=
  tweets ← load_tweets;
  print ("Analyzing " +:+ pretty (length tweets)
         +:+ " tweets for relevance...");;
  analyses ← mapM analyze_tweet_relevance tweets;
  let digest := generate_digest analyses in
  write_file "twitter_digest.md" digest;;
  print "Digest generated and saved to twitter_digest.md".

(** ** send_notification.py *)

(** [digest[:2000] + "..." if len(digest) > 2000 else digest] *)
Definition discord_description (digest : string) : string :=
  if (2000 <? String.length digest)%nat
  then substring 0 2000 digest +:+ "..."
  else digest.

Definition discord_payload (digest : string) : Payload :=
  mkPayload "New Twitter Digest Available!"
    [mkEmbed "Twitter Content Digest" (discord_description digest) 3447003].

(** [requests.post(DISCORD_WEBHOOK_URL, json=payload)] *)
Definition requests_post (payload : Payload) : M Response := λ w,
  (webhook env payload, posting payload w).

Definition send_to_discord (digest : string) : M unit :=
  response ← requests_post (discord_payload digest);
  if status_code response =? 204 then
    print "Digest sent to Discord successfully!"
  else
    print ("Error sending to Discord: " +:+ pretty (status_code response));;
    print (text response).

Definition read_digest : M string := read_file "twitter_digest.md".

Definition send_notification_main : M unit :=
  digest ← read_digest;
  send_to_discord digest.

(** ** run_workflow.py *)

(** The three scripts the orchestrator starts. *)
Definition script (name : string) : option (M unit) :=
  if decide (name = "fetch_tweets.py") then Some fetch_tweets_main
  else if decide (name = "analyze_tweets.py") then Some analyze_tweets_main
  else if decide (name = "send_notification.py") then Some send_notification_main
  else None.

(** [subprocess.run(argv)]: the child runs to its end or to an uncaught
    exception; either way the parent goes on, and keeps what the child did
    to the world. *)
Definition subprocess_run (argv : list string) : M unit := λ w,
  let started := spawning argv w in
  match argv with
  | [command; name] =>
      match (if decide (command = "python") then script name else None) with
      | Some main => (Ok tt, (main started).2)
      | None => (Ok tt, started)
      end
  | _ => (Ok tt, started)
  end.

Definition run_full_workflow : M unit :=
  print "Starting Twitter Gateway workflow...";;
  print (LF +:+ "--- Fetching Tweets ---");;
  subprocess_run ["python"; "fetch_tweets.py"];;
  print (LF +:+ "--- Analyzing Tweets ---");;
  subprocess_run ["python"; "analyze_tweets.py"];;
  digest_exists ← path_exists "twitter_digest.md";
  (if digest_exists : bool then
     print (LF +:+ "--- Sending Notification ---");;
     subprocess_run ["python"; "send_notification.py"]
   else
     print (LF +:+ "No digest was generated - no relevant tweets found."));;
  print (LF +:+ "Workflow complete!").

End program.

(** ** Specification predicates *)

(** [kept] is the order-preserving selection of the tweets of [tweets] with
    at least [k] likes: a subsequence of [tweets], made of qualifying tweets
    only, that contains every other such subsequence. *)
Definition retained_exactly (tweets : list Tweet) (k : Z) (kept : list Tweet)
  : Prop :=
  kept `sublist_of` tweets
  ∧ Forall (λ t, k ≤ favorite_count t) kept
  ∧ ∀ other, other `sublist_of` tweets →
             Forall (λ t, k ≤ favorite_count t) other →
             other `sublist_of` kept.

(** The digest that lists [items], one section each, in list order. *)
Definition render_sections (items : list Analysis) : string :=
  foldr (λ item rest, digest_section item +:+ rest) EmptyString items.

(** The text of a digest whose items are [items]. *)
Definition render_digest (items : list Analysis) : string :=
  match items with
  | [] => no_relevant_tweets
  | _ => digest_header +:+ render_sections items
  end.

(** [piece] occurs in [whole] as a contiguous run of characters. *)
Definition occurs_in (piece whole : string) : Prop :=
  ∃ before after, whole = before +:+ piece +:+ after.

(** The first line of a reply: what stands before the first line feed. *)
Definition first_line (reply : string) : string :=
  match split "010" reply with
  | line :: _ => line
  | [] => EmptyString
  end.

(** [c in s] *)
Fixpoint mem_char (c : ascii) (s : string) : bool :=
  match s with
  | EmptyString => false
  | String c' r => Ascii.eqb c' c || mem_char c r
  end.

(** [s] is made of white space only (or is empty). *)
Fixpoint all_space (s : string) : bool :=
  match s with
  | EmptyString => true
  | String c r => is_space c && all_space r
  end.

(** A character that may stand in a score token: a digit, a sign, an
    underscore or white space. *)
Definition token_char (c : ascii) : bool :=
  match digit_value c with
  | Some _ => true
  | None => Ascii.eqb c "+" || Ascii.eqb c "-" || Ascii.eqb c "_" || is_space c
  end.

(** The first line reads [label], a colon, [token], a slash and [rest], the
    colon being the first of the line and the slash the first after it. *)
Definition score_line_parts (reply label token rest : string) : Prop :=
  first_line reply = label +:+ ":" +:+ token +:+ "/" +:+ rest
  ∧ mem_char ":" label = false
  ∧ mem_char ":" token = false
  ∧ mem_char "/" token = false.

(** The text of an integer.  [numeral s v n]: [s] is made of [n] decimal
    digits, with single underscores allowed between two digits, and reads
    as the number [v]. *)
Inductive numeral : string → Z → nat → Prop :=
  | numeral_digit c d :
      digit_value c = Some d →
      numeral (String c EmptyString) d 1
  | numeral_next s v n c d :
      numeral s v n → digit_value c = Some d →
      numeral (s +:+ String c EmptyString) (10 * v + d) (S n)
  | numeral_underscore s v n c d :
      numeral s v n → digit_value c = Some d →
      numeral (s +:+ String "_" (String c EmptyString)) (10 * v + d) (S n).

(** An optional sign and the factor it stands for. *)
Inductive sign_text : string → Z → Prop :=
  | sign_none : sign_text EmptyString 1
  | sign_plus : sign_text "+" 1
  | sign_minus : sign_text "-" (-1).

(** [s] writes the integer [z]: white space accepted by [lead], an optional
    sign, a numeral of at most [int_max_str_digits] digits, white space
    accepted by [trail]. *)
Definition integer_text (lead trail : string → bool) (s : string) (z : Z)
  : Prop :=
  ∃ before sign body after factor v n,
    s = before +:+ sign +:+ body +:+ after
    ∧ lead before = true ∧ trail after = true
    ∧ sign_text sign factor ∧ numeral body v n
    ∧ (n ≤ int_max_str_digits)%nat
    ∧ z = factor * v.

(** What [int()] accepts. *)
Definition int_literal : string → Z → Prop :=
  integer_text all_int_space all_int_space.

(** The first line reads [label], a colon, [raw] and [stop]: the colon is
    the first of the line, and [raw] runs from it to the next colon or
    slash, or to the end of the line when there is neither. *)
Definition score_field (line label raw stop : string) : Prop :=
  line = label +:+ ":" +:+ raw +:+ stop
  ∧ mem_char ":" label = false
  ∧ mem_char ":" raw = false
  ∧ mem_char "/" raw = false
  ∧ (stop = EmptyString ∨ starts_with ":" stop = true
     ∨ starts_with "/" stop = true).

(** The field [raw] writes the integer [z].  Any white space may stand in
    front of the number; behind it any white space too, except that in
    front of a slash the four separators U+001C to U+001F are not
    accepted. *)
Definition written_score (raw stop : string) (z : Z) : Prop :=
  integer_text all_space
    (if starts_with "/" stop then all_int_space else all_space) raw z.

(** No score can be read from the first line of [reply]: it has no colon,
    or the field after its first colon writes no integer. *)
Definition unparseable (reply : string) : Prop :=
  mem_char ":" (first_line reply) = false
  ∨ ∃ label raw stop,
      score_field (first_line reply) label raw stop
      ∧ ∀ z, ¬ written_score raw stop z.

(** The pattern the specification names, [label: score/10], taken from its
    words and read generously: a label, a colon, a field that writes an
    integer with any white space around it, and the denominator [/10];
    whatever follows is accepted. *)
Definition label_score_pattern (line : string) : Prop :=
  ∃ label raw rest z,
    line = label +:+ ":" +:+ raw +:+ "/10" +:+ rest
    ∧ integer_text all_space all_space raw z.

(** The specification's sentence on parse failures, word for word: a reply
    whose first line is not of that pattern is scored 0, is kept as the
    rationale, and is listed by no digest. *)
Definition scored_zero_outside_pattern (tweet : Tweet) (reply : string) : Prop :=
  ¬ label_score_pattern (first_line reply) →
  score (analysis_of_reply tweet reply) = 0
  ∧ analysis (analysis_of_reply tweet reply) = reply
  ∧ ∀ analyses, analysis_of_reply tweet reply ∉ relevant_tweets analyses.

(** [x] may stand before [y] in a list sorted by [key], greatest first. *)
Definition by_key_desc {A} (key : A → Z) : relation A := λ x y, key y ≤ key x.

(** Scores never increase from one item to a later one. *)
Definition non_increasing (items : list Analysis) : Prop :=
  ∀ i j a b, (i < j)%nat → items !! i = Some a → items !! j = Some b →
             score b ≤ score a.

(** The items of [output] with score [s] are those of [input], in the order
    they have in [input]. *)
Definition keeps_order_at (s : Z) (input output : list Analysis) : Prop :=
  filter (λ a, score a = s) output = filter (λ a, score a = s) input.

(** The scores the specification allows: 1 to 10, or 0. *)
Definition score_in_range (tweet : Tweet) (reply : string) : Prop :=
  let s := score (analysis_of_reply tweet reply) in
  1 ≤ s ≤ 10 ∨ s = 0.

(** The statements of [analyze_tweets.py] up to the list of analyses. *)
Definition score_tweets (env : Env) : M (list Analysis) :=
  tweets ← load_tweets env;
  print ("Analyzing " +:+ pretty (length tweets) +:+ " tweets for relevance...");;
  mapM (analyze_tweet_relevance env) tweets.

(** The statements of [run_full_workflow] before the second
    [subprocess.run]. *)
Definition workflow_to_scoring (env : Env) : M unit :=
  print "Starting Twitter Gateway workflow...";;
  print (LF +:+ "--- Fetching Tweets ---");;
  subprocess_run env ["python"; "fetch_tweets.py"];;
  print (LF +:+ "--- Analyzing Tweets ---").

(** The world in which the child process [analyze_tweets.py] starts. *)
Definition scoring_start (env : Env) (w : World) : World :=
  spawning ["python"; "analyze_tweets.py"] (workflow_to_scoring env w).2.

(** How that child ends. *)
Definition scoring_outcome (env : Env) (w : World) : Result unit :=
  (analyze_tweets_main env (scoring_start env w)).1.

(** The world that child leaves, in which the orchestrator looks for the
    digest file. *)
Definition after_scoring (env : Env) (w : World) : World :=
  (analyze_tweets_main env (scoring_start env w)).2.

(** The command lines one run of the workflow starts. *)
Definition spawned_by_run (env : Env) (w : World) : list (list string) :=
  drop (length (spawned w)) (spawned (run_full_workflow env w).2).

(** A computation that starts no process and posts nothing. *)
Definition quiet {A} (m : M A) : Prop :=
  ∀ w, spawned (m w).2 = spawned w ∧ posted (m w).2 = posted w.

(** ** Sample inputs

    Concrete tweets, services and worlds on which the theorems are
    exercised. *)

Definition tweet_with_likes (likes : Z) : Tweet :=
  mkTweet "1" (mkUser "ada") "hello" likes 2.

(** The first item of the end-to-end example: 15 likes. *)
Definition sample_tweet : Tweet := tweet_with_likes 15.

Definition scored (url : string) (s : Z) : Analysis :=
  mkAnalysis sample_tweet url s "-".

Definition sample_analyses : list Analysis :=
  [scored "a" 7; scored "b" 9; scored "c" 6; scored "d" 7].

(** Services of which only the model answers, always with [reply]. *)
Definition sample_env (reply : string) : Env :=
  mkEnv (Raise RequestException) (λ _ _, Ok reply) (λ _, Raise RequestException)
    (λ _, EmptyString) (λ _, Raise JSONDecodeError).

Definition empty_world : World := mkWorld ∅ [] [] [] 0.

(** [c * n] *)
Fixpoint repeat_char (c : ascii) (n : nat) : string :=
  match n with
  | O => EmptyString
  | S n' => String c (repeat_char c n')
  end.

(** A source API that answers [response]; the other services fail. *)
Definition failing_env (response : Response) : Env :=
  mkEnv (Ok response) (λ _ _, Raise APIError) (λ _, Raise RequestException)
    (λ _, EmptyString) (λ _, Raise JSONDecodeError).

(** Services that answer: the source API returns [sample_tweet], the model
    replies [reply] to every request, the webhook accepts the post. *)
Definition answering_env (reply : string) : Env :=
  mkEnv (Ok (mkResponse 200 "{...}" (Ok {["tweets" := [sample_tweet]]})))
    (λ _ _, Ok reply)
    (λ _, Ok (mkResponse 204 EmptyString (Raise JSONDecodeError)))
    (λ _, "[...]")
    (λ _, Ok [sample_tweet]).

(** ** Further predicates and sample inputs *)

(** A computation that leaves what [proj] shows of the world as it is. *)
Definition preserves {A B} (proj : World → B) (m : M A) : Prop :=
  ∀ w, proj (m w).2 = proj w.

(** Services for the whole pipeline: the source API answers [source], the
    model replies [reply] to every request, the webhook accepts the post,
    and the codec reads every file as [loaded]. *)
Definition staged_env (source : Result Response) (reply : string)
    (loaded : list Tweet) : Env :=
  mkEnv source (λ _ _, Ok reply)
    (λ _, Ok (mkResponse 204 EmptyString (Raise JSONDecodeError)))
    (λ _, "[...]") (λ _, Ok loaded).

(** The source API of the end-to-end example: one tweet of 15 likes, one
    of 5. *)
Definition two_tweets : list Tweet := [tweet_with_likes 15; tweet_with_likes 5].

Definition two_tweets_response : Response :=
  mkResponse 200 "{...}" (Ok {["tweets" := two_tweets]}).

Definition two_tweets_env : Env :=
  staged_env (Ok two_tweets_response) "Score: 8/10" [tweet_with_likes 15].

(** A source API that refuses, and a world that holds the files of an
    earlier run. *)
Definition refused : Response :=
  mkResponse 429 "Too Many Requests" (Raise JSONDecodeError).

Definition stale_world : World :=
  written "twitter_digest.md" "yesterday's digest"
    (written "tweets_for_analysis.json" "[yesterday's tweets]" empty_world).

(** The same world after an editor has saved the digest with the line
    ends of another system: a carriage return before each line feed. *)
Definition CR : string := String "013" EmptyString.

Definition carriage_world : World :=
  written "twitter_digest.md"
    ("yesterday's digest" +:+ CR +:+ LF +:+ "second line" +:+ CR) stale_world.

(** The model answers the first request and fails on the second. *)
Definition flaky_env : Env :=
  mkEnv (Raise RequestException)
    (λ n _, match n with O => Ok "Score: 9/10" | _ => Raise APIError end)
    (λ _, Raise RequestException)
    (λ _, "[...]")
    (λ _, Ok [tweet_with_likes 15; tweet_with_likes 20; tweet_with_likes 30]).

(** A webhook that answers every post with [status] and [body]. *)
Definition webhook_env (status : Z) (body : string) : Env :=
  mkEnv (Raise RequestException) (λ _ _, Raise APIError)
    (λ _, Ok (mkResponse status body (Raise JSONDecodeError)))
    (λ _, EmptyString) (λ _, Raise JSONDecodeError).

(** The analyses of [tweets] when the model's reply to request [n] about
    tweet [t] is [reply n t] and the first request has number [first]. *)
Definition analyses_of (reply : nat → Tweet → string) (first : nat)
    (tweets : list Tweet) : list Analysis :=
  imap (λ i t, analysis_of_reply t (reply (first + i)%nat t)) tweets.

(** The source API cannot be reached; the model replies [reply] and the
    codec reads every file as [loaded]. *)
Definition unreachable_env (reply : string) (loaded : list Tweet) : Env :=
  staged_env (Raise RequestException) reply loaded.

(** ** Facts about the filter *)

Section filter_facts.
Implicit Types (tweets kept : list Tweet) (t : Tweet) (k : Z).

Lemma geb_likes t k : (favorite_count t >=? k) = true ↔ k ≤ favorite_count t.
Proof. rewrite Z.geb_le. reflexivity. Qed.

Lemma filter_tweets_as_filter tweets k :
  filter_tweets_by_engagement tweets k
  = filter (λ t, k ≤ favorite_count t) tweets.
Proof.
  induction tweets as [|t tweets IH]; simpl; [done|].
  rewrite IH. destruct (favorite_count t >=? k) eqn:E.
  - apply geb_likes in E. by rewrite filter_cons_True.
  - rewrite filter_cons_False; [done|].
    intros Hk. apply geb_likes in Hk. congruence.
Qed.

Lemma filter_tweets_sublist tweets k :
  filter_tweets_by_engagement tweets k `sublist_of` tweets.
Proof.
  induction tweets as [|t tweets IH]; simpl; [constructor|].
  destruct (favorite_count t >=? k); by constructor.
Qed.

Lemma filter_tweets_elem tweets k t :
  t ∈ filter_tweets_by_engagement tweets k
  ↔ t ∈ tweets ∧ k ≤ favorite_count t.
Proof. rewrite filter_tweets_as_filter, list_elem_of_filter. tauto. Qed.

(** Any subsequence of the input made of qualifying tweets only is a
    subsequence of the result: nothing that qualifies is dropped, and
    repetitions are kept as often as they occur. *)
Lemma filter_tweets_greatest tweets k kept :
  kept `sublist_of` tweets →
  Forall (λ t, k ≤ favorite_count t) kept →
  kept `sublist_of` filter_tweets_by_engagement tweets k.
Proof.
  intros Hsub. induction Hsub as [|t l1 l2 _ IH|t l1 l2 _ IH]; intros Hall; simpl.
  - constructor.
  - apply Forall_cons in Hall as [Ht Hall].
    apply geb_likes in Ht. rewrite Ht. constructor. by apply IH.
  - destruct (favorite_count t >=? k); [constructor|]; by apply IH.
Qed.
End filter_facts.

(** ** Facts about strings *)

Section string_facts.
Implicit Types (s t u : string) (c : ascii).

Lemma append_cons c s t : String c s +:+ t = String c (s +:+ t).
Proof. reflexivity. Qed.

Lemma append_empty_l s : EmptyString +:+ s = s.
Proof. reflexivity. Qed.

Lemma append_empty_r s : s +:+ EmptyString = s.
Proof. induction s as [|c s IH]; [done|]. by rewrite append_cons, IH. Qed.

Lemma append_assoc s t u : (s +:+ t) +:+ u = s +:+ (t +:+ u).
Proof. induction s as [|c s IH]; [done|]. by rewrite !append_cons, IH. Qed.

End string_facts.

(** ** Facts about the sort and the digest *)

Section digest_facts.
Context {A : Type} (key : A → Z).
Implicit Types (x y : A) (l : list A).

Lemma insert_desc_perm x l : insert_desc key x l ≡ₚ x :: l.
Proof.
  induction l as [|y l IH]; simpl; [done|].
  destruct (key x <? key y); [|done].
  rewrite IH. apply Permutation_swap.
Qed.

Lemma sorted_reverse_perm l : sorted_reverse key l ≡ₚ l.
Proof.
  induction l as [|x l IH]; simpl; [done|].
  unfold sorted_reverse in *. simpl. by rewrite insert_desc_perm, IH.
Qed.

Lemma insert_desc_sorted x l :
  StronglySorted (by_key_desc key) l → StronglySorted (by_key_desc key) (insert_desc key x l).
Proof.
  induction 1 as [|y l Hl IH Hy]; simpl.
  - repeat constructor.
  - destruct (key x <? key y) eqn:E.
    + apply Z.ltb_lt in E. constructor; [exact IH|].
      rewrite insert_desc_perm. constructor; [unfold by_key_desc; lia|exact Hy].
    + apply Z.ltb_ge in E. constructor; [by constructor|].
      constructor; [exact E|].
      eapply Forall_impl; [exact Hy|]. unfold by_key_desc. intros z Hz. lia.
Qed.

Lemma sorted_reverse_sorted l : StronglySorted (by_key_desc key) (sorted_reverse key l).
Proof.
  induction l as [|x l IH]; [constructor|].
  unfold sorted_reverse in *. simpl. by apply insert_desc_sorted.
Qed.

(** Inserting [x] moves it past items of a greater key only, so among the
    items of any one key nothing changes place. *)
Lemma insert_desc_filter_key x l k :
  filter (λ y, key y = k) (insert_desc key x l)
  = filter (λ y, key y = k) (x :: l).
Proof.
  induction l as [|y l IH]; simpl; [done|].
  destruct (key x <? key y) eqn:E; [|done].
  apply Z.ltb_lt in E.
  rewrite (filter_cons _ y), IH, !(filter_cons _ x), (filter_cons _ y).
  repeat case_decide; (done || lia).
Qed.

Lemma sorted_reverse_stable l k :
  filter (λ y, key y = k) (sorted_reverse key l) = filter (λ y, key y = k) l.
Proof.
  induction l as [|x l IH]; [done|].
  unfold sorted_reverse in *. simpl.
  by rewrite insert_desc_filter_key, !filter_cons, IH.
Qed.

Lemma StronglySorted_lookup (R : relation A) l i j x y :
  StronglySorted R l → (i < j)%nat → l !! i = Some x → l !! j = Some y → R x y.
Proof.
  intros Hl. revert i j. induction Hl as [|z l Hl IH Hz]; intros i j Hij Hi Hj.
  - by rewrite lookup_nil in Hi.
  - destruct j as [|j]; [lia|]. simpl in Hj. destruct i as [|i]; simpl in Hi.
    + injection Hi as ->. rewrite Forall_forall in Hz.
      apply Hz. eapply list_elem_of_lookup_2. exact Hj.
    + apply (IH i j); [lia|done..].
Qed.
End digest_facts.

Section digest_text_facts.
Implicit Types (items analyses : list Analysis) (a : Analysis).

Lemma fold_left_sections items start :
  fold_left (λ digest item, digest +:+ digest_section item) items start
  = start +:+ render_sections items.
Proof.
  revert start. induction items as [|a items IH]; intros start; simpl.
  - by rewrite append_empty_r.
  - by rewrite IH, append_assoc.
Qed.

Lemma generate_digest_render analyses :
  generate_digest analyses = render_digest (relevant_tweets analyses).
Proof.
  unfold generate_digest, render_digest.
  destruct (relevant_tweets analyses) as [|a items]; [done|].
  apply fold_left_sections.
Qed.

Lemma list_filter_elem (P : Analysis → bool) analyses a :
  a ∈ List.filter P analyses ↔ a ∈ analyses ∧ P a = true.
Proof. rewrite !list_elem_of_In. apply filter_In. Qed.

Lemma relevant_tweets_elem analyses a :
  a ∈ relevant_tweets analyses ↔ a ∈ analyses ∧ 7 ≤ score a.
Proof.
  unfold relevant_tweets. rewrite sorted_reverse_perm, list_filter_elem.
  by rewrite Z.geb_le.
Qed.

Lemma list_filter_key (P : Analysis → bool) analyses s :
  (∀ a, score a = s → P a = true) →
  filter (λ a, score a = s) (List.filter P analyses)
  = filter (λ a, score a = s) analyses.
Proof.
  intros HP. induction analyses as [|a analyses IH]; simpl; [done|].
  rewrite (filter_cons _ a). destruct (P a) eqn:E.
  - by rewrite filter_cons, IH.
  - rewrite IH. case_decide as Hs; [|done].
    apply HP in Hs. congruence.
Qed.

Lemma render_sections_occurs items a :
  a ∈ items → occurs_in (digest_section a) (render_sections items).
Proof.
  induction 1 as [a items|a b items _ [before [after IH]]]; simpl.
  - exists EmptyString, (render_sections items). done.
  - exists (digest_section b +:+ before), after.
    by rewrite IH, append_assoc.
Qed.
End digest_text_facts.

(** ** Facts about splitting, stripping and [int] *)

Section parse_facts.
Implicit Types (s t a b : string) (c sep : ascii).

Lemma split_cons sep s : ∃ piece pieces, split sep s = piece :: pieces.
Proof.
  induction s as [|c s (piece & pieces & IH)]; simpl; [by eauto|].
  destruct (Ascii.eqb c sep); [by eauto|]. rewrite IH. by eauto.
Qed.

Lemma mem_char_app c a b : mem_char c (a +:+ b) = mem_char c a || mem_char c b.
Proof.
  induction a as [|c' a IH]; [done|].
  rewrite append_cons. simpl. by rewrite IH, orb_assoc.
Qed.

Lemma split_without sep s : mem_char sep s = false → split sep s = [s].
Proof.
  induction s as [|c s IH]; simpl; [done|].
  intros [Hc Hs]%orb_false_elim. rewrite Hc, IH; done.
Qed.

(** Splitting [a ++ b] where [a] holds no separator: [a] goes in front of
    the first piece of [b]. *)
Lemma split_app_without sep a b :
  mem_char sep a = false →
  ∃ piece pieces, split sep b = piece :: pieces
                  ∧ split sep (a +:+ b) = (a +:+ piece) :: pieces.
Proof.
  intros Ha. destruct (split_cons sep b) as (piece & pieces & Hb).
  exists piece, pieces. split; [done|].
  induction a as [|c a IH]; [done|].
  simpl in Ha. apply orb_false_elim in Ha as [Hc Ha].
  rewrite !append_cons. simpl. by rewrite Hc, IH.
Qed.

Lemma split_app_sep sep a b :
  mem_char sep a = false →
  split sep (a +:+ String sep b) = a :: split sep b.
Proof.
  intros Ha. destruct (split_app_without sep a (String sep b) Ha)
    as (piece & pieces & Hb & ->).
  simpl in Hb. rewrite Ascii.eqb_refl in Hb. injection Hb as <- <-.
  by rewrite append_empty_r.
Qed.

Lemma lstrip_app_anchor a c b :
  is_space c = false → lstrip (a +:+ String c b) = lstrip a +:+ String c b.
Proof.
  intros Hc. induction a as [|c' a IH].
  - rewrite !append_empty_l. simpl. by rewrite Hc.
  - rewrite append_cons. simpl. destruct (is_space c'); [done|]. by rewrite append_cons.
Qed.

Lemma rstrip_app_anchor a c b :
  is_space c = false → rstrip (a +:+ String c b) = a +:+ String c (rstrip b).
Proof.
  intros Hc. induction a as [|c' a IH].
  - rewrite !append_empty_l. simpl. rewrite Hc. by destruct (rstrip b).
  - rewrite !append_cons. simpl. rewrite IH.
    destruct a; by rewrite ?append_empty_l, ?append_cons.
Qed.

Lemma mem_char_lstrip c s : mem_char c (lstrip s) = true → mem_char c s = true.
Proof.
  induction s as [|c' s IH]; simpl; [done|].
  destruct (is_space c'); [|done].
  intros H. rewrite (IH H). apply orb_true_r.
Qed.

Lemma mem_char_rstrip c s : mem_char c (rstrip s) = true → mem_char c s = true.
Proof.
  induction s as [|c' s IH]; simpl; [done|].
  destruct (rstrip s) as [|c'' r].
  - destruct (is_space c'); simpl; [done|]. rewrite orb_false_r. by intros ->.
  - simpl in *. intros [->|H]%orb_true_elim; [done|]. rewrite IH; [apply orb_true_r|done].
Qed.

Lemma mem_char_strip c s : mem_char c (strip s) = true → mem_char c s = true.
Proof. intros H. by apply mem_char_lstrip, mem_char_rstrip. Qed.

Lemma not_mem_char_strip c s : mem_char c s = false → mem_char c (strip s) = false.
Proof.
  intros H. destruct (mem_char c (strip s)) eqn:E; [|done].
  apply mem_char_strip in E. congruence.
Qed.

Lemma mem_char_lstrip_keep c s :
  is_space c = false → mem_char c s = true → mem_char c (lstrip s) = true.
Proof.
  intros Hc. induction s as [|c' s IH]; simpl; [done|].
  destruct (is_space c') eqn:E; [|done].
  intros [H|H]%orb_true_elim; [|by apply IH].
  apply Ascii.eqb_eq in H as ->. congruence.
Qed.

Lemma lstrip_all_space s : all_space s = true → lstrip s = EmptyString.
Proof.
  induction s as [|c s IH]; simpl; [done|].
  intros [-> Hs]%andb_true_iff. by apply IH.
Qed.

Lemma not_mem_char_lstrip c s : mem_char c s = false → mem_char c (lstrip s) = false.
Proof.
  intros H. destruct (mem_char c (lstrip s)) eqn:E; [|done].
  apply mem_char_lstrip in E. congruence.
Qed.

Lemma strip_app_anchor a c b :
  is_space c = false → strip (a +:+ String c b) = lstrip a +:+ String c (rstrip b).
Proof.
  intros Hc. unfold strip. by rewrite lstrip_app_anchor, rstrip_app_anchor.
Qed.

Lemma getitem_first_line reply :
  getitem (split "010" reply) 0 = Ok (first_line reply).
Proof.
  unfold first_line. by destruct (split_cons "010" reply) as (line & lines & ->).
Qed.

Lemma extract_score_try_no_colon reply :
  mem_char ":" (first_line reply) = false →
  extract_score_try reply = Raise IndexError.
Proof.
  intros H. unfold extract_score_try. rewrite getitem_first_line.
  simpl. by rewrite (split_without _ _ (not_mem_char_strip _ _ H)).
Qed.

Lemma extract_score_try_token reply label token rest :
  score_line_parts reply label token rest →
  extract_score_try reply = int (lstrip token).
Proof.
  intros (Hline & Hlabel & Htoken & Hslash).
  unfold extract_score_try. rewrite getitem_first_line, Hline. simpl.
  rewrite !append_cons, !append_empty_l.
  rewrite strip_app_anchor by done.
  rewrite split_app_sep by by apply not_mem_char_lstrip.
  rewrite rstrip_app_anchor by done.
  destruct (split_app_without ":" token (String "/" (rstrip rest)) Htoken)
    as (piece & pieces & Hpiece & ->).
  simpl in Hpiece.
  destruct (split_cons ":" (rstrip rest)) as (p & ps & Hp).
  rewrite Hp in Hpiece. injection Hpiece as <- <-. simpl.
  rewrite strip_app_anchor by done.
  rewrite split_app_sep by by apply not_mem_char_lstrip.
  done.
Qed.

End parse_facts.

Section int_facts.
Implicit Types (s t body rest : string) (c : ascii) (z acc : Z).

Lemma is_int_space_is_space c : is_int_space c = true → is_space c = true.
Proof. by destruct c as [[] [] [] [] [] [] [] []]. Qed.

Lemma is_space_token_char c : is_space c = true → token_char c = true.
Proof.
  intros H. unfold token_char. destruct (digit_value c); [done|].
  rewrite H. by rewrite !orb_true_r.
Qed.

Lemma digit_token_char c d : digit_value c = Some d → token_char c = true.
Proof. intros H. unfold token_char. by rewrite H. Qed.

Lemma mem_char_cons c c' s :
  mem_char c (String c' s) = true → c' = c ∨ mem_char c s = true.
Proof.
  simpl. intros [H|H]%orb_true_elim; [left; by apply Ascii.eqb_eq|by right].
Qed.

Lemma skip_int_space_chars c s :
  mem_char c s = true →
  token_char c = true ∨ mem_char c (skip_int_space s) = true.
Proof.
  induction s as [|c' s IH]; [done|]. simpl skip_int_space.
  destruct (is_int_space c') eqn:E; [|by right].
  intros [<-|H]%mem_char_cons; [|by apply IH].
  left. by apply is_space_token_char, is_int_space_is_space.
Qed.

Lemma all_int_space_chars c s :
  all_int_space s = true → mem_char c s = true → token_char c = true.
Proof.
  induction s as [|c' s IH]; [done|]. simpl all_int_space.
  intros [Hc Hs]%andb_true_iff [<-|H]%mem_char_cons; [|by apply IH].
  by apply is_space_token_char, is_int_space_is_space.
Qed.

Lemma scan_digits_chars c s u acc n value digits rest :
  scan_digits u acc n s = Some (value, digits, rest) →
  mem_char c s = true →
  token_char c = true ∨ mem_char c rest = true.
Proof.
  revert u acc n. induction s as [|c' s IH]; intros u acc n; [done|].
  simpl scan_digits. destruct (digit_value c') as [d|] eqn:Ed.
  - intros Hscan [<-|H]%mem_char_cons; [left; by eapply digit_token_char|].
    by eapply IH.
  - destruct (Ascii.eqb c' "_") eqn:Eu.
    + apply Ascii.eqb_eq in Eu as ->. destruct u; [done|].
      intros Hscan [<-|H]%mem_char_cons; [by left|]. by eapply IH.
    + destruct u; [done|]. intros [= _ _ <-] H. by right.
Qed.

Lemma int_of_digits_chars c sign body z :
  int_of_digits sign body = Ok z → mem_char c body = true → token_char c = true.
Proof.
  unfold int_of_digits. destruct (starts_with "_" body); [done|].
  destruct (scan_digits false 0 0 body) as [[[value digits] rest]|] eqn:Escan; [|done].
  destruct (Nat.eqb digits 0); [done|].
  destruct (all_int_space rest) eqn:Erest; [|done]. simpl.
  intros _ H. destruct (scan_digits_chars _ _ _ _ _ _ _ _ Escan H) as [?|Hr]; [done|].
  by eapply all_int_space_chars.
Qed.

Lemma starts_with_inv c s : starts_with c s = true → s = String c (drop_first s).
Proof. destruct s as [|c' s]; [done|]. simpl. by intros ->%Ascii.eqb_eq. Qed.

(** [int] accepts a string only if all its characters are digits, signs,
    underscores or white space. *)
Lemma int_ok_chars c s z :
  int s = Ok z → mem_char c s = true → token_char c = true.
Proof.
  intros Hint Hc. destruct (skip_int_space_chars _ _ Hc) as [?|Hbody]; [done|].
  revert Hint. unfold int. cbv zeta.
  destruct (starts_with "+" (skip_int_space s)) eqn:Eplus.
  { apply starts_with_inv in Eplus. rewrite Eplus in Hbody.
    apply mem_char_cons in Hbody as [<-|?]; [done|].
    intros Hint. by eapply int_of_digits_chars. }
  destruct (starts_with "-" (skip_int_space s)) eqn:Eminus.
  { apply starts_with_inv in Eminus. rewrite Eminus in Hbody.
    apply mem_char_cons in Hbody as [<-|?]; [done|].
    intros Hint. by eapply int_of_digits_chars. }
  intros Hint. by eapply int_of_digits_chars.
Qed.

Lemma int_raises_on c s :
  mem_char c s = true → token_char c = false → int s = Raise ValueError.
Proof.
  intros Hc Hn. destruct (int s) as [z|e] eqn:E.
  - pose proof (int_ok_chars _ _ _ E Hc). congruence.
  - revert E. unfold int, int_of_digits. cbv zeta.
    repeat case_match; congruence.
Qed.

End int_facts.

Section int_pretty_facts.
Implicit Types (s : string) (c : ascii) (x : N) (z acc : Z).

Lemma digit_value_pretty_N_char x :
  (x < 10)%N → digit_value (pretty_N_char x) = Some (Z.of_N x).
Proof.
  intros Hx.
  assert (x = 0 ∨ x = 1 ∨ x = 2 ∨ x = 3 ∨ x = 4 ∨ x = 5 ∨ x = 6 ∨ x = 7
          ∨ x = 8 ∨ x = 9)%N as Hcases by lia.
  repeat destruct Hcases as [->|Hcases]; try reflexivity. by subst.
Qed.

Lemma digit_not_other c d :
  digit_value c = Some d →
  is_int_space c = false ∧ Ascii.eqb c "+" = false
  ∧ Ascii.eqb c "-" = false ∧ Ascii.eqb c "_" = false.
Proof. by destruct c as [[] [] [] [] [] [] [] []]. Qed.

Lemma pretty_N_go_first x s :
  (0 < x)%N → ∃ c r d, pretty_N_go x s = String c r ∧ digit_value c = Some d.
Proof.
  revert s. induction (N.lt_wf_0 x) as [x _ IH]; intros s Hx.
  rewrite pretty_N_go_step by done.
  destruct (decide (x `div` 10 = 0)%N) as [->|Hdiv].
  - rewrite pretty_N_go_0. eexists _, _, _. split; [done|].
    apply digit_value_pretty_N_char. by apply N.mod_lt.
  - apply IH.
    + apply N.div_lt; [done|done].
    + by apply N.neq_0_lt_0.
Qed.

(** Scanning the decimal numeral of [x]: [k] digits are read, and they
    extend the value read before by [x]. *)
Lemma N_decimal_step x :
  Z.of_N x = 10 * Z.of_N (x `div` 10) + Z.of_N (x `mod` 10)
  ∧ 0 ≤ Z.of_N (x `mod` 10) < 10.
Proof.
  split.
  - rewrite (N.div_mod x 10) at 1 by done.
    by rewrite N2Z.inj_add, N2Z.inj_mul.
  - split; [apply N2Z.is_nonneg|].
    change 10 with (Z.of_N 10). by apply N2Z.inj_lt, N.mod_lt.
Qed.

Lemma scan_digits_pretty_N_go x :
  (0 < x)%N →
  ∃ k : nat, (0 < k)%nat
    ∧ 10 ^ (Z.of_nat k - 1) ≤ Z.of_N x < 10 ^ Z.of_nat k
    ∧ ∀ u acc n s,
        scan_digits u acc n (pretty_N_go x s)
        = scan_digits false (acc * 10 ^ Z.of_nat k + Z.of_N x) (n + k) s.
Proof.
  induction (N.lt_wf_0 x) as [x _ IH]; intros Hx.
  pose proof (digit_value_pretty_N_char _ (N.mod_lt x 10 ltac:(done))) as Hdigit.
  destruct (N_decimal_step x) as [Hstep Hmod].
  destruct (decide (x `div` 10 = 0)%N) as [Hdiv|Hdiv].
  - rewrite Hdiv in Hstep. exists 1%nat. split; [lia|]. split; [simpl; lia|].
    intros u acc n s. rewrite pretty_N_go_step, Hdiv, pretty_N_go_0 by done.
    simpl scan_digits. rewrite Hdigit. f_equal; lia.
  - destruct (IH (x `div` 10)%N) as (k & Hk & Hbound & Hscan);
      [by apply N.div_lt|by apply N.neq_0_lt_0|].
    exists (S k).
    assert (Hpow : 10 ^ Z.of_nat (S k) = 10 * 10 ^ Z.of_nat k).
    { rewrite Nat2Z.inj_succ. apply Z.pow_succ_r. lia. }
    assert (Hpow' : 10 ^ Z.of_nat k = 10 * 10 ^ (Z.of_nat k - 1)).
    { rewrite <- Z.pow_succ_r by lia. f_equal. lia. }
    split; [lia|]. split.
    + replace (Z.of_nat (S k) - 1) with (Z.of_nat k) by lia.
      rewrite Hpow, Hpow' in *. lia.
    + intros u acc n s. rewrite pretty_N_go_step, Hscan by done.
      simpl scan_digits. rewrite Hdigit, Hpow. f_equal; lia.
Qed.

Lemma int_of_digits_pretty_N_go sign x :
  (0 < x)%N → Z.of_N x < 10 ^ Z.of_nat int_max_str_digits →
  int_of_digits sign (pretty_N_go x EmptyString) = Ok (sign * Z.of_N x).
Proof.
  intros Hx Hlim. unfold int_of_digits.
  destruct (pretty_N_go_first x EmptyString Hx) as (c & r & d & Hs & Hd).
  destruct (digit_not_other _ _ Hd) as (_ & _ & _ & Hu).
  destruct (scan_digits_pretty_N_go x Hx) as (k & Hk & Hbound & Hscan).
  assert (Hstart : starts_with "_" (pretty_N_go x EmptyString) = false)
    by by rewrite Hs.
  rewrite Hstart, Hscan. change (0 + k)%nat with k. unfold scan_digits.
  assert (Hk0 : Nat.eqb k 0 = false) by (apply Nat.eqb_neq; lia).
  assert (Hkmax : Nat.ltb int_max_str_digits k = false).
  { apply Nat.ltb_ge.
    assert (Z.of_nat k - 1 < Z.of_nat int_max_str_digits); [|lia].
    apply (Z.pow_lt_mono_r_iff 10); lia. }
  rewrite Hk0, Hkmax. simpl. by rewrite Z.add_0_l.
Qed.

Lemma int_unsigned s c r d :
  s = String c r → digit_value c = Some d → int s = int_of_digits 1 s.
Proof.
  intros -> Hd. destruct (digit_not_other _ _ Hd) as (Hsp & Hplus & Hminus & _).
  unfold int. cbv zeta. simpl skip_int_space. rewrite Hsp.
  unfold starts_with. by rewrite Hplus, Hminus.
Qed.

(** [int(str(z))] is [z] for every [z] of at most [int_max_str_digits]
    digits. *)
Lemma int_pretty z :
  Z.abs z < 10 ^ Z.of_nat int_max_str_digits → int (pretty z) = Ok z.
Proof.
  intros Hz. destruct z as [|p|p].
  - reflexivity.
  - change (pretty (Z.pos p)) with (pretty_N_go (N.pos p) EmptyString).
    destruct (pretty_N_go_first (N.pos p) EmptyString) as (c & r & d & Hs & Hd); [done|].
    rewrite (int_unsigned _ _ _ _ Hs Hd).
    by rewrite int_of_digits_pretty_N_go by (done || lia).
  - change (pretty (Z.neg p)) with (String "-" (pretty_N_go (N.pos p) EmptyString)).
    unfold int. cbv zeta. simpl skip_int_space. simpl starts_with. simpl drop_first.
    cbv iota.
    by rewrite int_of_digits_pretty_N_go by (done || lia).
Qed.

End int_pretty_facts.

Section pretty_facts.
Implicit Types (s : string) (c : ascii) (x : N) (z : Z).

Lemma pretty_N_go_chars x s c :
  mem_char c (pretty_N_go x s) = true →
  (∃ d, digit_value c = Some d) ∨ mem_char c s = true.
Proof.
  revert s. induction (N.lt_wf_0 x) as [x _ IH]; intros s.
  destruct (decide (x = 0)%N) as [->|Hx]; [rewrite pretty_N_go_0; by right|].
  apply N.neq_0_lt_0 in Hx. rewrite pretty_N_go_step by done.
  intros H. apply IH in H; [|by apply N.div_lt].
  destruct H as [?|[<-|?]%mem_char_cons]; [by left| |by right].
  left. eexists. apply digit_value_pretty_N_char. by apply N.mod_lt.
Qed.

Lemma pretty_Z_chars z c :
  mem_char c (pretty z) = true → (∃ d, digit_value c = Some d) ∨ c = "-"%char.
Proof.
  destruct z as [|p|p].
  - intros [<-|?]%mem_char_cons; [|done]. left. by eexists.
  - change (pretty (Z.pos p)) with (pretty_N_go (N.pos p) EmptyString).
    intros [?|?]%pretty_N_go_chars; [by left|done].
  - change (pretty (Z.neg p)) with (String "-" (pretty_N_go (N.pos p) EmptyString)).
    intros [<-|[?|?]%pretty_N_go_chars]%mem_char_cons; [by right|by left|done].
Qed.

Lemma pretty_Z_without z c :
  digit_value c = None → c ≠ "-"%char → mem_char c (pretty z) = false.
Proof.
  intros Hd Hc. destruct (mem_char c (pretty z)) eqn:E; [|done].
  apply pretty_Z_chars in E as [[d ?]|?]; congruence.
Qed.

Lemma digit_not_space c d : digit_value c = Some d → is_space c = false.
Proof. by destruct c as [[] [] [] [] [] [] [] []]. Qed.

Lemma lstrip_pretty z : lstrip (pretty z) = pretty z.
Proof.
  destruct z as [|p|p]; [done| |done].
  change (pretty (Z.pos p)) with (pretty_N_go (N.pos p) EmptyString).
  destruct (pretty_N_go_first (N.pos p) EmptyString) as (c & r & d & -> & Hd); [done|].
  simpl. by rewrite (digit_not_space _ _ Hd).
Qed.
End pretty_facts.

(** ** Facts about integer literals and the score field *)

Section numeral_facts.
Implicit Types (s t body rest : string) (c : ascii) (v acc : Z) (n k : nat).

Lemma numeral_first s v n :
  numeral s v n → ∃ c r d, s = String c r ∧ digit_value c = Some d.
Proof.
  induction 1 as [c d Hd|s v n c d _ (c0 & r & d0 & -> & Hd0) _
                 |s v n c d _ (c0 & r & d0 & -> & Hd0) _].
  - by eexists _, _, _.
  - rewrite append_cons. by eexists _, _, _.
  - rewrite append_cons. by eexists _, _, _.
Qed.

Lemma numeral_positive s v n : numeral s v n → (0 < n)%nat.
Proof. destruct 1; lia. Qed.

(** Scanning a numeral leaves the scanner with its value and its count of
    digits, whatever follows. *)
Lemma scan_digits_numeral s v n u rest :
  numeral s v n →
  scan_digits u 0 0 (s +:+ rest) = scan_digits false v n rest.
Proof.
  intros Hs. revert rest. induction Hs as [c d Hd|s v n c d _ IH Hd|s v n c d _ IH Hd];
    intros rest.
  - rewrite append_cons, append_empty_l. simpl scan_digits. by rewrite Hd.
  - rewrite append_assoc, append_cons, append_empty_l, IH.
    simpl scan_digits. by rewrite Hd.
  - rewrite append_assoc, !append_cons, append_empty_l, IH.
    simpl scan_digits. destruct (digit_value "_") eqn:E; [done|].
    by rewrite Hd.
Qed.

(** What the scanner has read is a numeral. *)
Lemma scan_digits_inv s :
  ∀ p acc k v n rest,
    numeral p acc k →
    (scan_digits false acc k s = Some (v, n, rest) →
     ∃ q, s = q +:+ rest ∧ numeral (p +:+ q) v n)
    ∧ (scan_digits true acc k s = Some (v, n, rest) →
       ∃ q, s = q +:+ rest ∧ numeral (p +:+ String "_" q) v n).
Proof.
  induction s as [|c s IH]; intros p acc k v n rest Hp.
  - split; [|done]. intros [= <- <- <-]. exists EmptyString.
    split; [done|]. by rewrite append_empty_r.
  - simpl scan_digits. destruct (digit_value c) as [d|] eqn:Hd.
    + split; intros Hscan.
      * destruct (proj1 (IH (p +:+ String c EmptyString) _ _ v n rest
                           (numeral_next _ _ _ _ _ Hp Hd)) Hscan) as (q & -> & Hq).
        exists (String c q). split; [done|].
        by rewrite append_assoc, append_cons, append_empty_l in Hq.
      * destruct (proj1 (IH (p +:+ String "_" (String c EmptyString)) _ _ v n rest
                           (numeral_underscore _ _ _ _ _ Hp Hd)) Hscan)
          as (q & -> & Hq).
        exists (String c q). split; [done|].
        by rewrite append_assoc, !append_cons, append_empty_l in Hq.
    + destruct (Ascii.eqb c "_") eqn:Hu.
      * apply Ascii.eqb_eq in Hu as ->. split; [|done]. intros Hscan.
        destruct (proj2 (IH p acc k v n rest Hp) Hscan) as (q & -> & Hq).
        by exists (String "_" q).
      * split; [|done]. intros [= <- <- <-]. exists EmptyString.
        split; [done|]. by rewrite append_empty_r.
Qed.

Lemma scan_digits_start s v n rest :
  scan_digits false 0 0 s = Some (v, n, rest) → n ≠ 0%nat →
  starts_with "_" s = false →
  ∃ body, s = body +:+ rest ∧ numeral body v n.
Proof.
  destruct s as [|c s]; [by intros [= <- <- <-]|].
  simpl scan_digits. simpl starts_with.
  destruct (digit_value c) as [d|] eqn:Hd.
  - intros Hscan _ _.
    destruct (proj1 (scan_digits_inv s (String c EmptyString) _ _ v n rest
                       (numeral_digit c d Hd)) Hscan) as (q & -> & Hq).
    exists (String c q). split; [done|]. exact Hq.
  - intros Hscan Hn Hu. rewrite Hu in Hscan. by injection Hscan as <- <- <-.
Qed.
End numeral_facts.

Section literal_facts.
Implicit Types (s t raw body rest before after ws : string) (c : ascii).
Implicit Types (z v factor : Z) (n : nat).

Lemma int_space_not_other c :
  is_int_space c = true →
  digit_value c = None ∧ Ascii.eqb c "_" = false.
Proof. by destruct c as [[] [] [] [] [] [] [] []]. Qed.

Lemma all_int_space_all_space s : all_int_space s = true → all_space s = true.
Proof.
  induction s as [|c s IH]; [done|]. simpl.
  intros [Hc Hs]%andb_true_iff. by rewrite (is_int_space_is_space _ Hc), IH.
Qed.

Lemma all_space_app s t : all_space (s +:+ t) = all_space s && all_space t.
Proof.
  induction s as [|c s IH]; [done|]. rewrite append_cons. simpl.
  by rewrite IH, andb_assoc.
Qed.

Lemma all_int_space_app s t :
  all_int_space (s +:+ t) = all_int_space s && all_int_space t.
Proof.
  induction s as [|c s IH]; [done|]. rewrite append_cons. simpl.
  by rewrite IH, andb_assoc.
Qed.

Lemma skip_int_space_split s :
  ∃ before, s = before +:+ skip_int_space s ∧ all_int_space before = true.
Proof.
  induction s as [|c s (before & IH & Hb)]; [by exists EmptyString|].
  simpl. destruct (is_int_space c) eqn:E; [|by exists EmptyString].
  exists (String c before). rewrite append_cons. split; [by f_equal|].
  simpl. by rewrite E.
Qed.

Lemma skip_int_space_app before rest :
  all_int_space before = true →
  skip_int_space (before +:+ rest) = skip_int_space rest.
Proof.
  induction before as [|c b IH]; [done|]. rewrite append_cons. simpl.
  intros [-> H]%andb_true_iff. by apply IH.
Qed.

Lemma lstrip_split s : ∃ ws, s = ws +:+ lstrip s ∧ all_space ws = true.
Proof.
  induction s as [|c s (ws & IH & Hws)]; [by exists EmptyString|].
  simpl. destruct (is_space c) eqn:E; [|by exists EmptyString].
  exists (String c ws). rewrite append_cons. split; [by f_equal|].
  simpl. by rewrite E.
Qed.

Lemma lstrip_app_space ws rest :
  all_space ws = true → lstrip (ws +:+ rest) = lstrip rest.
Proof.
  induction ws as [|c b IH]; [done|]. rewrite append_cons. simpl.
  intros [-> H]%andb_true_iff. by apply IH.
Qed.

Lemma lstrip_app_keep s ws :
  all_space s = false → lstrip (s +:+ ws) = lstrip s +:+ ws.
Proof.
  induction s as [|c s IH]; [done|]. rewrite append_cons. simpl.
  destruct (is_space c); [exact IH|]. by rewrite append_cons.
Qed.

Lemma rstrip_split s : ∃ ws, s = rstrip s +:+ ws ∧ all_space ws = true.
Proof.
  induction s as [|c s (ws & IH & Hws)]; [by exists EmptyString|].
  simpl. destruct (rstrip s) as [|c' r] eqn:E.
  - rewrite append_empty_l in IH. subst ws.
    destruct (is_space c) eqn:Ec.
    + exists (String c s). split; [done|]. simpl. by rewrite Ec.
    + exists s. by rewrite append_cons, append_empty_l.
  - exists ws. rewrite append_cons. split; [by f_equal|done].
Qed.

Lemma rstrip_all_space s : all_space s = true → rstrip s = EmptyString.
Proof.
  induction s as [|c s IH]; [done|]. simpl.
  intros [Hc Hs]%andb_true_iff. by rewrite IH, Hc.
Qed.

Lemma rstrip_app_space s ws :
  all_space ws = true → rstrip (s +:+ ws) = rstrip s.
Proof.
  intros H. induction s as [|c s IH].
  - rewrite append_empty_l. by apply rstrip_all_space.
  - rewrite append_cons. simpl. by rewrite IH.
Qed.

Lemma strip_app_space s ws : all_space ws = true → strip (s +:+ ws) = strip s.
Proof.
  intros H. unfold strip. destruct (all_space s) eqn:E.
  - rewrite (lstrip_all_space s E), lstrip_all_space; [done|].
    by rewrite all_space_app, E.
  - by rewrite lstrip_app_keep, rstrip_app_space.
Qed.

Lemma strip_rstrip s : strip (rstrip s) = strip s.
Proof.
  destruct (rstrip_split s) as (ws & Hs & Hws).
  transitivity (strip (rstrip s +:+ ws)); [symmetry; by apply strip_app_space|].
  by rewrite <- Hs.
Qed.

Lemma not_mem_char_rstrip c s : mem_char c s = false → mem_char c (rstrip s) = false.
Proof.
  intros H. destruct (mem_char c (rstrip s)) eqn:E; [|done].
  apply mem_char_rstrip in E. congruence.
Qed.

Lemma numeral_last s v n :
  numeral s v n → ∃ r c d, s = r +:+ String c EmptyString ∧ digit_value c = Some d.
Proof.
  destruct 1 as [c d Hd|s v n c d _ Hd|s v n c d _ Hd].
  - by exists EmptyString, c, d.
  - by exists s, c, d.
  - exists (s +:+ "_"), c, d. by rewrite append_assoc, append_cons, append_empty_l.
Qed.

Lemma scan_digits_stop v n after :
  all_int_space after = true → scan_digits false v n after = Some (v, n, after).
Proof.
  destruct after as [|c r]; [done|]. simpl. intros [Hc _]%andb_true_iff.
  destruct (int_space_not_other _ Hc) as [-> ->]. done.
Qed.

Lemma int_of_digits_numeral factor body after v n :
  numeral body v n → (n ≤ int_max_str_digits)%nat → all_int_space after = true →
  int_of_digits factor (body +:+ after) = Ok (factor * v).
Proof.
  intros Hbody Hn Hafter. unfold int_of_digits.
  destruct (numeral_first _ _ _ Hbody) as (c & r & d & Hs & Hd).
  destruct (digit_not_other _ _ Hd) as (_ & _ & _ & Hu).
  assert (Hstart : starts_with "_" (body +:+ after) = false).
  { rewrite Hs, append_cons. exact Hu. }
  rewrite Hstart, (scan_digits_numeral _ _ _ _ _ Hbody), (scan_digits_stop _ _ _ Hafter).
  pose proof (numeral_positive _ _ _ Hbody) as Hpos.
  destruct (Nat.eqb_spec n 0) as [->|_]; [lia|].
  rewrite Hafter. simpl negb. cbv iota.
  destruct (Nat.ltb_spec int_max_str_digits n); [lia|done].
Qed.

Lemma int_of_digits_inv factor s z :
  int_of_digits factor s = Ok z →
  ∃ body after v n,
    s = body +:+ after ∧ numeral body v n ∧ all_int_space after = true
    ∧ (n ≤ int_max_str_digits)%nat ∧ z = factor * v.
Proof.
  unfold int_of_digits. destruct (starts_with "_" s) eqn:Hu; [done|].
  destruct (scan_digits false 0 0 s) as [[[v n] rest]|] eqn:Hscan; [|done].
  destruct (Nat.eqb_spec n 0) as [|Hn]; [done|].
  destruct (all_int_space rest) eqn:Hrest; [|done]. simpl negb. cbv iota.
  destruct (Nat.ltb_spec int_max_str_digits n) as [|Hmax]; [done|].
  intros [= <-].
  destruct (scan_digits_start _ _ _ _ Hscan Hn Hu) as (body & -> & Hbody).
  by exists body, rest, v, n.
Qed.

(** A sign and a numeral start with a character that is no white space. *)
Lemma signed_numeral_first sign factor body v n rest :
  sign_text sign factor → numeral body v n →
  ∃ c r, sign +:+ body +:+ rest = String c r ∧ is_space c = false.
Proof.
  intros Hsign Hbody.
  destruct (numeral_first _ _ _ Hbody) as (c & r & d & -> & Hd).
  destruct Hsign.
  - rewrite append_empty_l, append_cons. eexists _, _. split; [done|].
    by eapply digit_not_space.
  - rewrite append_cons. by eexists _, _.
  - rewrite append_cons. by eexists _, _.
Qed.

Lemma int_signed_numeral sign factor body after v n :
  sign_text sign factor → numeral body v n → (n ≤ int_max_str_digits)%nat →
  all_int_space after = true →
  int (sign +:+ body +:+ after) = Ok (factor * v).
Proof.
  intros Hsign Hbody Hn Hafter. unfold int. cbv zeta.
  destruct Hsign.
  - rewrite append_empty_l.
    destruct (numeral_first _ _ _ Hbody) as (c & r & d & Hs & Hd).
    destruct (digit_not_other _ _ Hd) as (Hsp & Hplus & Hminus & _).
    assert (Hskip : skip_int_space (body +:+ after) = body +:+ after).
    { rewrite Hs, append_cons. simpl. by rewrite Hsp. }
    assert (H1 : starts_with "+" (body +:+ after) = false).
    { by rewrite Hs, append_cons. }
    assert (H2 : starts_with "-" (body +:+ after) = false).
    { by rewrite Hs, append_cons. }
    rewrite Hskip, H1, H2. by apply (int_of_digits_numeral _ _ _ _ n).
  - rewrite append_cons, append_empty_l. simpl skip_int_space.
    simpl starts_with. simpl drop_first. cbv iota.
    by apply (int_of_digits_numeral _ _ _ _ n).
  - rewrite append_cons, append_empty_l. simpl skip_int_space.
    simpl starts_with. simpl drop_first. cbv iota.
    by apply (int_of_digits_numeral _ _ _ _ n).
Qed.

(** [int] accepts exactly the integer literals, and returns the integer
    they write. *)
Lemma int_literal_iff s z : int s = Ok z ↔ int_literal s z.
Proof.
  unfold int_literal, integer_text. split.
  - unfold int. cbv zeta. destruct (skip_int_space_split s) as (before & Hs & Hb).
    destruct (starts_with "+" (skip_int_space s)) eqn:Hplus;
      [|destruct (starts_with "-" (skip_int_space s)) eqn:Hminus].
    + intros (body & after & v & n & Hbody & Hnum & Ha & Hn & ->)%int_of_digits_inv.
      exists before, "+", body, after, 1, v, n.
      split; [|repeat split; try done; constructor].
      etrans; [exact Hs|]. f_equal.
      rewrite (starts_with_inv _ _ Hplus), Hbody.
      by rewrite append_cons, append_empty_l.
    + intros (body & after & v & n & Hbody & Hnum & Ha & Hn & ->)%int_of_digits_inv.
      exists before, "-", body, after, (-1), v, n.
      split; [|repeat split; try done; constructor].
      etrans; [exact Hs|]. f_equal.
      rewrite (starts_with_inv _ _ Hminus), Hbody.
      by rewrite append_cons, append_empty_l.
    + intros (body & after & v & n & Hbody & Hnum & Ha & Hn & ->)%int_of_digits_inv.
      exists before, EmptyString, body, after, 1, v, n.
      split; [|repeat split; try done; constructor].
      etrans; [exact Hs|]. f_equal. by rewrite append_empty_l.
  - intros (before & sign & body & after & factor & v & n
            & -> & Hb & Ha & Hsign & Hbody & Hn & ->).
    transitivity (int (sign +:+ body +:+ after)); [|by eapply int_signed_numeral].
    unfold int. cbv zeta. by rewrite skip_int_space_app.
Qed.

Lemma int_raises s e : int s = Raise e → e = ValueError.
Proof.
  unfold int, int_of_digits. cbv zeta. repeat case_match; congruence.
Qed.

(** [int(raw.lstrip())]: the white space in front of the number may be any
    white space. *)
Lemma int_lstrip_literal raw z :
  int (lstrip raw) = Ok z ↔ integer_text all_space all_int_space raw z.
Proof.
  split.
  - intros (b & sign & body & after & factor & v & n
            & Hs & Hb & Ha & Hsign & Hbody & Hn & ->)%int_literal_iff.
    destruct (lstrip_split raw) as (ws & Hraw & Hws).
    exists (ws +:+ b), sign, body, after, factor, v, n.
    split; [etrans; [exact Hraw|]; by rewrite Hs, append_assoc|].
    split; [|done].
    by rewrite all_space_app, Hws, all_int_space_all_space.
  - intros (before & sign & body & after & factor & v & n
            & -> & Hb & Ha & Hsign & Hbody & Hn & ->).
    rewrite (lstrip_app_space _ _ Hb).
    destruct (signed_numeral_first _ _ _ _ _ after Hsign Hbody) as (c & r & Hc & Hsp).
    assert (Hl : lstrip (sign +:+ body +:+ after) = sign +:+ body +:+ after).
    { rewrite Hc. simpl. by rewrite Hsp. }
    rewrite Hl. by eapply int_signed_numeral.
Qed.

(** [int(raw.strip())]: any white space may stand on both sides. *)
Lemma int_strip_literal raw z :
  int (strip raw) = Ok z ↔ integer_text all_space all_space raw z.
Proof.
  split.
  - intros (b & sign & body & after & factor & v & n
            & Hs & Hb & Ha & Hsign & Hbody & Hn & ->)%int_literal_iff.
    destruct (lstrip_split raw) as (ws & Hraw & Hws).
    destruct (rstrip_split (lstrip raw)) as (ws' & Hl & Hws').
    fold (strip raw) in Hl.
    exists (ws +:+ b), sign, body, (after +:+ ws'), factor, v, n.
    split; [etrans; [exact Hraw|]; by rewrite Hl, Hs, !append_assoc|].
    split; [by rewrite all_space_app, Hws, all_int_space_all_space|].
    split; [|done].
    by rewrite all_space_app, Hws', all_int_space_all_space.
  - intros (before & sign & body & after & factor & v & n
            & -> & Hb & Ha & Hsign & Hbody & Hn & ->).
    unfold strip. rewrite (lstrip_app_space _ _ Hb).
    destruct (signed_numeral_first _ _ _ _ _ after Hsign Hbody) as (c & r & Hc & Hsp).
    assert (Hl : lstrip (sign +:+ body +:+ after) = sign +:+ body +:+ after).
    { rewrite Hc. simpl. by rewrite Hsp. }
    rewrite Hl.
    destruct (numeral_last _ _ _ Hbody) as (r' & c' & d' & Hr & Hd').
    assert (Hrs : rstrip (sign +:+ body +:+ after)
                  = sign +:+ body +:+ EmptyString).
    { rewrite Hr, !append_assoc, !append_cons, !append_empty_l.
      rewrite <- append_assoc, rstrip_app_anchor by by eapply digit_not_space.
      by rewrite (rstrip_all_space _ Ha), append_assoc. }
    rewrite Hrs. by eapply int_signed_numeral.
Qed.
End literal_facts.

Section field_facts.
Implicit Types (s line reply label raw stop a b : string) (c : ascii) (z : Z).

Lemma first_occurrence c s :
  mem_char c s = true → ∃ a b, s = a +:+ String c b ∧ mem_char c a = false.
Proof.
  induction s as [|c' s IH]; [done|]. simpl.
  destruct (Ascii.eqb c' c) eqn:E.
  - apply Ascii.eqb_eq in E as ->. intros _. by exists EmptyString, s.
  - simpl. intros (a & b & -> & Ha)%IH. exists (String c' a), b.
    split; [by rewrite append_cons|]. simpl. by rewrite E.
Qed.

Lemma field_end s :
  ∃ raw stop,
    s = raw +:+ stop ∧ mem_char ":" raw = false ∧ mem_char "/" raw = false
    ∧ (stop = EmptyString ∨ starts_with ":" stop = true
       ∨ starts_with "/" stop = true).
Proof.
  induction s as [|c s (raw & stop & Hs & Hc & Hsl & Hstop)].
  - exists EmptyString, EmptyString. by eauto.
  - destruct (Ascii.eqb c ":") eqn:E1.
    { exists EmptyString, (String c s). simpl. rewrite E1. by eauto 10. }
    destruct (Ascii.eqb c "/") eqn:E2.
    { exists EmptyString, (String c s). simpl. rewrite E2. by eauto 10. }
    exists (String c raw), stop. rewrite append_cons. simpl.
    rewrite E1, E2, <- Hs. done.
Qed.

(** A line with a colon has a score field, and only one. *)
Lemma score_field_exists line :
  mem_char ":" line = true → ∃ label raw stop, score_field line label raw stop.
Proof.
  intros (label & tail & -> & Hlabel)%first_occurrence.
  destruct (field_end tail) as (raw & stop & -> & Hc & Hs & Hstop).
  exists label, raw, stop. split; [|done].
  by rewrite append_cons, append_empty_l.
Qed.

Lemma score_field_colon line label raw stop :
  score_field line label raw stop → mem_char ":" line = true.
Proof.
  intros (-> & _). rewrite !mem_char_app. simpl. by rewrite orb_true_r.
Qed.

(** What the body of the [try] hands to [int()]. *)
Lemma extract_score_try_field reply label raw stop :
  score_field (first_line reply) label raw stop →
  extract_score_try reply
  = int (if starts_with "/" stop then lstrip raw else strip raw).
Proof.
  intros (Hline & Hlabel & Hcolon & Hslash & Hstop).
  destruct stop as [|c more].
  - simpl starts_with. cbv iota. rewrite append_empty_r in Hline.
    unfold extract_score_try. rewrite getitem_first_line, Hline. simpl.
    rewrite append_cons, append_empty_l.
    rewrite strip_app_anchor by done.
    rewrite split_app_sep by by apply not_mem_char_lstrip.
    rewrite (split_without ":" (rstrip raw)) by by apply not_mem_char_rstrip.
    simpl.
    rewrite (split_without "/" (strip (rstrip raw)))
      by by apply not_mem_char_strip, not_mem_char_rstrip.
    simpl. by rewrite strip_rstrip.
  - destruct Hstop as [?|[Hc|Hc]]; [done|..];
      simpl in Hc; apply Ascii.eqb_eq in Hc as ->.
    + simpl starts_with. cbv iota.
      unfold extract_score_try. rewrite getitem_first_line, Hline. simpl.
      rewrite !append_cons, !append_empty_l.
      rewrite strip_app_anchor by done.
      rewrite split_app_sep by by apply not_mem_char_lstrip.
      rewrite rstrip_app_anchor by done.
      rewrite (split_app_sep ":" raw) by done.
      simpl.
      rewrite (split_without "/" (strip raw)) by by apply not_mem_char_strip.
      done.
    + simpl starts_with. cbv iota.
      by apply (extract_score_try_token reply label raw more).
Qed.

Lemma extract_score_try_written reply label raw stop z :
  score_field (first_line reply) label raw stop →
  extract_score_try reply = Ok z ↔ written_score raw stop z.
Proof.
  intros Hfield. rewrite (extract_score_try_field _ _ _ _ Hfield).
  unfold written_score.
  destruct (starts_with "/" stop); [apply int_lstrip_literal|apply int_strip_literal].
Qed.

(** The body of the [try] raises [IndexError] on a first line without a
    colon, [ValueError] on a field that writes no integer, and nothing
    else. *)
Lemma extract_score_try_raises reply e :
  extract_score_try reply = Raise e →
  (e = IndexError ∧ mem_char ":" (first_line reply) = false)
  ∨ (e = ValueError
     ∧ ∃ label raw stop,
         score_field (first_line reply) label raw stop
         ∧ ∀ z, ¬ written_score raw stop z).
Proof.
  intros Hraise. destruct (mem_char ":" (first_line reply)) eqn:Hcolon.
  - right. destruct (score_field_exists _ Hcolon) as (label & raw & stop & Hfield).
    split.
    + rewrite (extract_score_try_field _ _ _ _ Hfield) in Hraise.
      by eapply int_raises.
    + exists label, raw, stop. split; [done|]. intros z Hz.
      apply (extract_score_try_written _ _ _ _ _ Hfield) in Hz. congruence.
  - left. rewrite extract_score_try_no_colon in Hraise by done.
    split; [congruence|done].
Qed.

Lemma unparseable_raises reply :
  unparseable reply ↔ ∃ e, extract_score_try reply = Raise e.
Proof.
  split.
  - intros [Hcolon|(label & raw & stop & Hfield & Hnone)].
    + exists IndexError. by apply extract_score_try_no_colon.
    + destruct (extract_score_try reply) as [z|e] eqn:E; [|by exists e].
      apply (extract_score_try_written _ _ _ _ _ Hfield) in E. by destruct (Hnone z).
  - intros [e [[_ H]|[_ H]]%extract_score_try_raises]; [by left|by right].
Qed.
End field_facts.

Section scorer_facts.
Variable env : Env.
Implicit Types (tweet : Tweet) (reply : string) (w : World).

Lemma extract_score_cases reply :
  (∃ z, extract_score_try reply = Ok z ∧ extract_score reply = z)
  ∨ (∃ e, extract_score_try reply = Raise e ∧ extract_score reply = 0).
Proof.
  unfold extract_score. destruct (extract_score_try reply) as [z|e]; by eauto.
Qed.

Lemma extract_score_raise reply e :
  extract_score_try reply = Raise e → extract_score reply = 0.
Proof. unfold extract_score. by intros ->. Qed.

Lemma analyze_tweet_relevance_run tweet reply w :
  chat env (completions w) tweet = Ok reply →
  ∃ w', analyze_tweet_relevance env tweet w = (Ok (analysis_of_reply tweet reply), w').
Proof.
  intros Hchat. unfold analyze_tweet_relevance, mbind, M_bind, chat_completion.
  rewrite Hchat. by eexists.
Qed.

Lemma extract_score_written reply label z rest :
  first_line reply = label +:+ ": " +:+ pretty z +:+ "/10" +:+ rest →
  mem_char ":" label = false →
  Z.abs z < 10 ^ Z.of_nat int_max_str_digits →
  extract_score reply = z.
Proof.
  intros Hline Hlabel Hz.
  assert (Hparts : score_line_parts reply label (" " +:+ pretty z) ("10" +:+ rest)).
  { split; [|split; [done|]].
    - rewrite Hline. by repeat (rewrite append_cons || rewrite append_empty_l).
    - rewrite !mem_char_app, !pretty_Z_without; done. }
  unfold extract_score. rewrite (extract_score_try_token _ _ _ _ Hparts).
  rewrite append_cons, append_empty_l. simpl lstrip.
  by rewrite lstrip_pretty, int_pretty.
Qed.
End scorer_facts.

(** ** Facts about the notifier *)

Section notifier_facts.
Implicit Types (s digest : string) (n : nat).

Lemma substring_first n s :
  (n ≤ String.length s)%nat →
  ∃ rest, s = substring 0 n s +:+ rest ∧ String.length (substring 0 n s) = n.
Proof.
  revert s. induction n as [|n IH]; intros s Hn.
  - exists s. by destruct s.
  - destruct s as [|c s]; simpl in Hn; [lia|].
    destruct (IH s) as (rest & Hs & Hlen); [lia|].
    exists rest. simpl. rewrite append_cons, <- Hs, Hlen. done.
Qed.

End notifier_facts.

(** ** Facts about the stages and the workflow *)

Section monad_facts.
Context {A B : Type}.
Implicit Types (m : M A) (f : A → M B) (w : World).

Lemma bind_run m f w :
  (m ≫= f) w = match m w with
               | (Ok a, w') => f a w'
               | (Raise e, w') => (Raise e, w')
               end.
Proof. reflexivity. Qed.

Lemma quiet_bind m f : quiet m → (∀ a, quiet (f a)) → quiet (m ≫= f).
Proof.
  intros Hm Hf w. rewrite bind_run. specialize (Hm w).
  destruct (m w) as [[a|e] w']; [|exact Hm].
  destruct (Hf a w') as [-> ->]. exact Hm.
Qed.

Lemma quiet_ret (a : A) : quiet (mret a : M A).
Proof. by intros w. Qed.

Lemma quiet_lift (r : Result A) : quiet (lift r).
Proof. by intros w. Qed.
End monad_facts.

Section quiet_facts.
Variable env : Env.

Lemma quiet_print line : quiet (print line).
Proof. by intros w. Qed.

Lemma quiet_write_file path data : quiet (write_file path data).
Proof. by intros w. Qed.

Lemma quiet_read_file path : quiet (read_file path).
Proof. intros w. unfold read_file. by destruct (files w !! path). Qed.

Lemma quiet_chat_completion tweet : quiet (chat_completion env tweet).
Proof. by intros w. Qed.

Lemma quiet_mapM {A B} (f : A → M B) (l : list A) :
  (∀ a, quiet (f a)) → quiet (mapM f l).
Proof.
  intros Hf. induction l as [|a l IH]; simpl; [apply quiet_ret|].
  apply quiet_bind; [apply Hf|]. intros b.
  apply quiet_bind; [apply IH|]. intros bs. apply quiet_ret.
Qed.

Lemma quiet_fetch_list_tweets : quiet (fetch_list_tweets env).
Proof.
  apply quiet_bind; [apply quiet_lift|]. intros response.
  destruct (status_code response =? 200).
  - apply quiet_bind; [apply quiet_lift|]. intros data. apply quiet_lift.
  - repeat (apply quiet_bind; [apply quiet_print|]; intros _). apply quiet_ret.
Qed.

Lemma quiet_fetch_tweets_main : quiet (fetch_tweets_main env).
Proof.
  apply quiet_bind; [apply quiet_fetch_list_tweets|]. intros tweets.
  repeat (apply quiet_bind; [apply quiet_print|]; intros _).
  apply quiet_bind; [apply quiet_write_file|]. intros _. apply quiet_print.
Qed.

Lemma quiet_score_tweets : quiet (score_tweets env).
Proof.
  apply quiet_bind.
  { apply quiet_bind; [apply quiet_read_file|]. intros data. apply quiet_lift. }
  intros tweets. apply quiet_bind; [apply quiet_print|]. intros _.
  apply quiet_mapM. intros tweet.
  apply quiet_bind; [apply quiet_chat_completion|]. intros reply. apply quiet_ret.
Qed.

(** The scoring script: the analyses, then the digest file and a line. *)
Lemma analyze_tweets_main_run w :
  analyze_tweets_main env w
  = match score_tweets env w with
    | (Ok analyses, w') =>
        (Ok tt, printed "Digest generated and saved to twitter_digest.md"
                  (written "twitter_digest.md" (generate_digest analyses) w'))
    | (Raise e, w') => (Raise e, w')
    end.
Proof.
  unfold analyze_tweets_main, score_tweets. rewrite !bind_run.
  destruct (load_tweets env w) as [[tweets|e] w1]; [|done].
  rewrite !bind_run. cbn [print]. rewrite bind_run.
  match goal with
  | |- context [mapM ?f tweets ?w0] =>
      destruct (mapM f tweets w0) as [[analyses|e] w2]
  end; done.
Qed.

Lemma quiet_analyze_tweets_main : quiet (analyze_tweets_main env).
Proof.
  intros w. rewrite analyze_tweets_main_run.
  pose proof (quiet_score_tweets w) as Hq.
  by destruct (score_tweets env w) as [[analyses|e] w'].
Qed.

End quiet_facts.

Section workflow_facts.
Variable env : Env.
Implicit Types (w : World).

Lemma send_notification_main_effect w :
  spawned (send_notification_main env w).2 = spawned w
  ∧ files (send_notification_main env w).2 = files w
  ∧ posted (send_notification_main env w).2
    = match files w !! "twitter_digest.md" with
      | Some digest => posted w ++ [discord_payload (universal_newlines digest)]
      | None => posted w
      end.
Proof.
  unfold send_notification_main, read_digest, read_file. rewrite bind_run.
  destruct (files w !! "twitter_digest.md") as [digest|]; [|done].
  unfold send_to_discord, requests_post. rewrite bind_run.
  destruct (webhook env (discord_payload (universal_newlines digest)))
    as [response|e]; [|done].
  by destruct (status_code response =? 204).
Qed.

Lemma subprocess_run_fetch w :
  subprocess_run env ["python"; "fetch_tweets.py"] w
  = (Ok tt, (fetch_tweets_main env (spawning ["python"; "fetch_tweets.py"] w)).2).
Proof. reflexivity. Qed.

Lemma subprocess_run_analyze w :
  subprocess_run env ["python"; "analyze_tweets.py"] w
  = (Ok tt, (analyze_tweets_main env (spawning ["python"; "analyze_tweets.py"] w)).2).
Proof. reflexivity. Qed.

Lemma subprocess_run_notify w :
  subprocess_run env ["python"; "send_notification.py"] w
  = (Ok tt, (send_notification_main env (spawning ["python"; "send_notification.py"] w)).2).
Proof. reflexivity. Qed.

Ltac run_workflow_steps :=
  repeat first
    [ rewrite bind_run
    | rewrite subprocess_run_fetch
    | rewrite subprocess_run_analyze
    | rewrite subprocess_run_notify
    | progress cbn [print snd] ].

Lemma scoring_start_effect w :
  spawned (scoring_start env w)
  = spawned w ++ [["python"; "fetch_tweets.py"]; ["python"; "analyze_tweets.py"]]
  ∧ posted (scoring_start env w) = posted w.
Proof.
  unfold scoring_start, workflow_to_scoring.
  run_workflow_steps. cbn [spawned posted spawning printed].
  match goal with
  | |- context [fetch_tweets_main env ?w0] =>
      destruct (quiet_fetch_tweets_main env w0) as [-> ->]
  end.
  cbn [spawned posted spawning printed]. by rewrite <- app_assoc.
Qed.

Lemma after_scoring_effect w :
  spawned (after_scoring env w)
  = spawned w ++ [["python"; "fetch_tweets.py"]; ["python"; "analyze_tweets.py"]]
  ∧ posted (after_scoring env w) = posted w.
Proof.
  unfold after_scoring.
  destruct (quiet_analyze_tweets_main env (scoring_start env w)) as [-> ->].
  apply scoring_start_effect.
Qed.

(** The workflow after the scoring script: the conditional and the last
    line. *)
Lemma run_full_workflow_run w :
  run_full_workflow env w
  = (Ok tt,
     let scored := after_scoring env w in
     match files scored !! "twitter_digest.md" with
     | Some _ =>
         printed (LF +:+ "Workflow complete!")
           (send_notification_main env
              (spawning ["python"; "send_notification.py"]
                 (printed (LF +:+ "--- Sending Notification ---") scored))).2
     | None =>
         printed (LF +:+ "Workflow complete!")
           (printed (LF +:+ "No digest was generated - no relevant tweets found.")
              scored)
     end).
Proof.
  unfold run_full_workflow, after_scoring, scoring_start, workflow_to_scoring.
  run_workflow_steps.
  match goal with
  | |- context [analyze_tweets_main env ?w0] =>
      set (scored := (analyze_tweets_main env w0).2)
  end.
  unfold path_exists.
  destruct (files scored !! "twitter_digest.md") as [digest|] eqn:E.
  - rewrite bool_decide_eq_true_2 by by eexists.
    run_workflow_steps. reflexivity.
  - rewrite bool_decide_eq_false_2 by (by intros [? ?]).
    run_workflow_steps. reflexivity.
Qed.

(** What one run of the workflow starts, posts and leaves on disk. *)
Lemma run_full_workflow_effect w :
  let scored := after_scoring env w in
  let final := (run_full_workflow env w).2 in
  (run_full_workflow env w).1 = Ok tt
  ∧ files final = files scored
  ∧ match files scored !! "twitter_digest.md" with
    | Some digest =>
        spawned_by_run env w
        = [["python"; "fetch_tweets.py"]; ["python"; "analyze_tweets.py"];
           ["python"; "send_notification.py"]]
        ∧ posted final = posted w ++ [discord_payload (universal_newlines digest)]
    | None =>
        spawned_by_run env w
        = [["python"; "fetch_tweets.py"]; ["python"; "analyze_tweets.py"]]
        ∧ posted final = posted w
    end.
Proof.
  unfold spawned_by_run. rewrite run_full_workflow_run. cbn [fst snd].
  destruct (after_scoring_effect w) as [Hspawned Hposted].
  destruct (files (after_scoring env w) !! "twitter_digest.md") as [digest|] eqn:E.
  - match goal with
    | |- context [send_notification_main env ?w0] =>
        destruct (send_notification_main_effect w0) as (Hs & Hf & Hp)
    end.
    cbn [files posted spawned spawning printed] in *. rewrite E in Hp.
    rewrite Hs, Hf, Hp, Hspawned, Hposted, <- app_assoc, drop_app_length.
    done.
  - cbn [files posted spawned printed].
    by rewrite Hspawned, Hposted, drop_app_length.
Qed.


Lemma analyze_tweets_main_of_scores w analyses :
  (score_tweets env w).1 = Ok analyses →
  (analyze_tweets_main env w).1 = Ok tt
  ∧ files (analyze_tweets_main env w).2 !! "twitter_digest.md"
    = Some (generate_digest analyses).
Proof.
  rewrite analyze_tweets_main_run.
  destruct (score_tweets env w) as [[analyses'|e] w']; [|done].
  intros [= ->]. cbn [fst snd files printed written].
  by rewrite lookup_insert_eq.
Qed.


End workflow_facts.

(** ** The claims *)

(** C1. For every list of tweets and every threshold [k], the filter returns
    exactly the tweets whose [favorite_count] is at least [k], in their
    original relative order: the result is the order-preserving selection of
    the qualifying tweets and the only one, its members are the input's
    members with enough likes, and the empty list is mapped to the empty
    list.  The function is pure: it reads its arguments and builds a new
    list. *)
Theorem filter_tweets_by_engagement_exact (tweets : list Tweet) (k : Z) :
  retained_exactly tweets k (filter_tweets_by_engagement tweets k)
  ∧ (∀ kept, retained_exactly tweets k kept →
             kept = filter_tweets_by_engagement tweets k)
  ∧ (∀ t, t ∈ filter_tweets_by_engagement tweets k
          ↔ t ∈ tweets ∧ k ≤ favorite_count t)
  ∧ filter_tweets_by_engagement [] k = [].
Proof.
  assert (Hqual : Forall (λ t, k ≤ favorite_count t)
                    (filter_tweets_by_engagement tweets k)).
  { apply Forall_forall. intros t Ht. by apply filter_tweets_elem in Ht as [_ ?]. }
  assert (Hexact : retained_exactly tweets k (filter_tweets_by_engagement tweets k)).
  { split; [apply filter_tweets_sublist|]. split; [exact Hqual|].
    apply filter_tweets_greatest. }
  split; [exact Hexact|].
  split; [|split; [apply filter_tweets_elem|reflexivity]].
  intros kept (Hsub & Hall & Hmax).
  apply (anti_symm sublist).
  - by apply filter_tweets_greatest.
  - apply Hmax; [apply filter_tweets_sublist|exact Hqual].
Qed.

Lemma filter_tweets_by_engagement_exact_witness :
  (tweet_with_likes 15
     ∈ filter_tweets_by_engagement [tweet_with_likes 15; tweet_with_likes 5] 10)
  ∧ (tweet_with_likes 5
     ∉ filter_tweets_by_engagement [tweet_with_likes 15; tweet_with_likes 5] 10).
Proof.
  destruct (filter_tweets_by_engagement_exact
              [tweet_with_likes 15; tweet_with_likes 5] 10)
    as (_ & _ & Hmem & _).
  split.
  - apply Hmem. split; [apply list_elem_of_here|simpl; lia].
  - intros Hin. apply Hmem in Hin as [_ Hlikes]. simpl in Hlikes. lia.
Defined.

(** C2. For every list of scored analyses, the digest is the rendering of
    the retained items in an order in which scores never increase, and the
    retained items of any one score follow each other as they do in the
    input list: the sort is stable. *)
Theorem generate_digest_sorted_stable (analyses : list Analysis) :
  generate_digest analyses = render_digest (relevant_tweets analyses)
  ∧ relevant_tweets analyses ≡ₚ List.filter (λ a, score a >=? 7) analyses
  ∧ non_increasing (relevant_tweets analyses)
  ∧ (∀ s, 7 ≤ s → keeps_order_at s analyses (relevant_tweets analyses)).
Proof.
  split; [apply generate_digest_render|].
  split; [apply sorted_reverse_perm|].
  split.
  - intros i j a b Hij Hi Hj.
    exact (StronglySorted_lookup (by_key_desc score) _ i j a b
             (sorted_reverse_sorted score _) Hij Hi Hj).
  - intros s Hs. unfold keeps_order_at, relevant_tweets.
    rewrite sorted_reverse_stable. apply list_filter_key.
    intros a <-. by apply Z.geb_le.
Qed.

Lemma generate_digest_sorted_stable_witness :
  7 ≤ 7
  ∧ keeps_order_at 7 sample_analyses (relevant_tweets sample_analyses)
  ∧ filter (λ a, score a = 7) (relevant_tweets sample_analyses)
    = [scored "a" 7; scored "d" 7]
  ∧ non_increasing (relevant_tweets sample_analyses).
Proof.
  destruct (generate_digest_sorted_stable sample_analyses)
    as (_ & _ & Hsorted & Hstable).
  assert (H7 : 7 ≤ 7) by lia.
  split; [exact H7|]. split; [exact (Hstable 7 H7)|].
  split; [|exact Hsorted].
  rewrite (Hstable 7 H7). vm_compute. reflexivity.
Defined.

(** C3. For every list of scored analyses, an item of score 6, one below the
    cutoff, is not among the items the digest lists, and every item the
    digest lists has a score of at least 7; an analysed item of score 7 or
    more is listed, and its section stands in the digest text. *)
Theorem generate_digest_cutoff (analyses : list Analysis) (a : Analysis) :
  generate_digest analyses = render_digest (relevant_tweets analyses)
  ∧ Forall (λ b, 7 ≤ score b) (relevant_tweets analyses)
  ∧ (score a = 6 → a ∉ relevant_tweets analyses)
  ∧ (a ∈ analyses → 7 ≤ score a →
     a ∈ relevant_tweets analyses
     ∧ occurs_in (digest_section a) (generate_digest analyses)).
Proof.
  split; [apply generate_digest_render|].
  split; [apply Forall_forall; intros b Hb; by apply relevant_tweets_elem in Hb as [_ ?]|].
  split.
  - intros H6 Hin. apply relevant_tweets_elem in Hin as [_ H7]. lia.
  - intros Hin H7.
    assert (Hrel : a ∈ relevant_tweets analyses) by by apply relevant_tweets_elem.
    split; [exact Hrel|].
    rewrite generate_digest_render. unfold render_digest.
    destruct (relevant_tweets analyses) as [|b items] eqn:E.
    { by apply elem_of_nil in Hrel. }
    destruct (render_sections_occurs _ _ Hrel) as (before & after & Hocc).
    exists (digest_header +:+ before), after.
    by rewrite Hocc, append_assoc.
Qed.

Lemma generate_digest_cutoff_witness :
  (scored "c" 6 ∉ relevant_tweets sample_analyses)
  ∧ (scored "d" 7 ∈ relevant_tweets sample_analyses)
  ∧ occurs_in (digest_section (scored "d" 7)) (generate_digest sample_analyses).
Proof.
  split.
  - destruct (generate_digest_cutoff sample_analyses (scored "c" 6))
      as (_ & _ & Hout & _).
    apply Hout. reflexivity.
  - destruct (generate_digest_cutoff sample_analyses (scored "d" 7))
      as (_ & _ & _ & Hin).
    apply Hin; [|simpl; lia].
    unfold sample_analyses. do 3 apply list_elem_of_further. apply list_elem_of_here.
Defined.

(** C4, as stated, fails: the first line of the reply ["Score: 8"] has no
    slash and so no denominator: it is not of the pattern [label: score/10].
    Yet the reply is scored 8, not 0. *)
Lemma scored_zero_outside_pattern_counterexample :
  ¬ scored_zero_outside_pattern sample_tweet "Score: 8".
Proof.
  intros H. destruct H as [Hscore _].
  - intros (label & raw & rest & z & Hline & _).
    assert (Hslash : mem_char "/" (first_line "Score: 8") = true).
    { rewrite Hline, !mem_char_app. simpl. by rewrite !orb_true_r. }
    vm_compute in Hslash. discriminate.
  - vm_compute in Hscore. discriminate.
Qed.

(** C4, amended.  Once the model has replied, the scorer returns an analysis
    that holds the whole reply, unchanged.  When no score can be read from
    the first line (it has no colon, or the field between its first colon
    and the next colon or slash, or the end of the line, writes no integer)
    the score is 0 and no digest lists the item.  In every other case the
    score is the integer that field writes, whether a denominator follows
    or not. *)
Theorem unparseable_reply_scored_zero (env : Env) (tweet : Tweet)
    (reply : string) (w : World) :
  chat env (completions w) tweet = Ok reply →
  ∃ a w', analyze_tweet_relevance env tweet w = (Ok a, w')
          ∧ analysis a = reply
          ∧ (unparseable reply →
             score a = 0 ∧ ∀ analyses, a ∉ relevant_tweets analyses)
          ∧ (¬ unparseable reply →
             ∃ label raw stop,
               score_field (first_line reply) label raw stop
               ∧ written_score raw stop (score a)).
Proof.
  intros Hchat.
  destruct (analyze_tweet_relevance_run env tweet reply w Hchat) as [w' Hrun].
  exists (analysis_of_reply tweet reply), w'.
  split; [exact Hrun|]. split; [reflexivity|]. split.
  - intros [e Hraise]%unparseable_raises.
    assert (Hscore : score (analysis_of_reply tweet reply) = 0)
      by exact (extract_score_raise reply e Hraise).
    split; [exact Hscore|].
    intros analyses Hin. apply relevant_tweets_elem in Hin as [_ H7]. lia.
  - intros Hparse. cbn [score analysis_of_reply]. unfold extract_score.
    destruct (extract_score_try reply) as [z|e] eqn:Htry.
    + destruct (mem_char ":" (first_line reply)) eqn:Hcolon.
      * destruct (score_field_exists _ Hcolon) as (label & raw & stop & Hfield).
        exists label, raw, stop. split; [exact Hfield|].
        by apply (extract_score_try_written reply label).
      * rewrite extract_score_try_no_colon in Htry by done. discriminate.
    + destruct Hparse. apply unparseable_raises. by exists e.
Qed.

Lemma unparseable_reply_scored_zero_witness :
  chat (sample_env "Score: 7-8/10") (completions empty_world) sample_tweet
  = Ok "Score: 7-8/10"
  ∧ unparseable "Score: 7-8/10"
  ∧ ∃ a w', analyze_tweet_relevance (sample_env "Score: 7-8/10") sample_tweet
              empty_world = (Ok a, w')
            ∧ analysis a = "Score: 7-8/10"
            ∧ score a = 0
            ∧ ∀ analyses, a ∉ relevant_tweets analyses.
Proof.
  assert (Hparse : unparseable "Score: 7-8/10").
  { right. exists "Score", " 7-8", "/10". split.
    - repeat split; try (vm_compute; reflexivity). right. right. reflexivity.
    - intros z Hz. apply int_lstrip_literal in Hz. vm_compute in Hz. discriminate. }
  split; [reflexivity|]. split; [exact Hparse|].
  destruct (unparseable_reply_scored_zero (sample_env "Score: 7-8/10") sample_tweet
              "Score: 7-8/10" empty_world eq_refl)
    as (a & w' & Hrun & Hreply & Hzero & _).
  exists a, w'. destruct (Hzero Hparse) as [Hscore Hout].
  split; [exact Hrun|]. split; [exact Hreply|]. split; [exact Hscore|exact Hout].
Defined.

(** C5. The description the notifier posts: for a digest of more than 2000
    characters, the first 2000 characters of the digest followed by the
    marker ["..."]; for a digest of at most 2000 characters, the digest
    itself. *)
Theorem send_to_discord_truncates (env : Env) (digest : string) (w : World) :
  ∃ embed,
    posted (send_to_discord env digest w).2
    = posted w ++ [mkPayload "New Twitter Digest Available!" [embed]]
    ∧ ((2000 < String.length digest)%nat →
       ∃ first rest, digest = first +:+ rest
                     ∧ String.length first = 2000%nat
                     ∧ description embed = first +:+ "...")
    ∧ ((String.length digest ≤ 2000)%nat → description embed = digest).
Proof.
  exists (mkEmbed "Twitter Content Digest" (discord_description digest) 3447003).
  split.
  - unfold send_to_discord, mbind, M_bind, requests_post.
    destruct (webhook env (discord_payload digest)) as [response|e]; [|done].
    by destruct (status_code response =? 204).
  - unfold discord_description. cbn [description]. split.
    + intros Hlong. destruct (substring_first 2000 digest) as (rest & Hd & Hlen); [lia|].
      exists (substring 0 2000 digest), rest.
      apply Nat.ltb_lt in Hlong. by rewrite Hlong.
    + intros Hshort. apply Nat.ltb_ge in Hshort. by rewrite Hshort.
Qed.

Lemma send_to_discord_truncates_witness :
  (2000 < String.length (repeat_char "a" 2001))%nat
  ∧ (String.length "short digest" ≤ 2000)%nat
  ∧ (∃ embed first rest,
       posted (send_to_discord (sample_env "-") (repeat_char "a" 2001) empty_world).2
       = [mkPayload "New Twitter Digest Available!" [embed]]
       ∧ repeat_char "a" 2001 = first +:+ rest
       ∧ String.length first = 2000%nat
       ∧ description embed = first +:+ "...")
  ∧ (∃ embed,
       posted (send_to_discord (sample_env "-") "short digest" empty_world).2
       = [mkPayload "New Twitter Digest Available!" [embed]]
       ∧ description embed = "short digest").
Proof.
  assert (Hlong : (2000 < String.length (repeat_char "a" 2001))%nat)
    by (vm_compute; lia).
  assert (Hshort : (String.length "short digest" ≤ 2000)%nat)
    by (vm_compute; lia).
  split; [exact Hlong|]. split; [exact Hshort|]. split.
  - destruct (send_to_discord_truncates (sample_env "-") (repeat_char "a" 2001)
                empty_world) as (embed & Hposted & Htrunc & _).
    destruct (Htrunc Hlong) as (first & rest & Hd & Hlen & Hdesc).
    exists embed, first, rest. auto.
  - destruct (send_to_discord_truncates (sample_env "-") "short digest"
                empty_world) as (embed & Hposted & _ & Hsame).
    exists embed. auto.
Defined.

(** C6. On a response whose status is not 200 the collector prints the
    status and the body and returns the empty list instead of raising; a
    successful fetch that finds no tweet returns the same value, so the
    caller cannot tell the two apart. *)
Theorem fetch_failure_returns_empty (env : Env) (response : Response) (w : World) :
  source_api env = Ok response →
  status_code response ≠ 200 →
  fetch_list_tweets env w
  = (Ok [], printed (text response)
              (printed ("Error fetching tweets: "
                        +:+ pretty (status_code response)) w))
  ∧ ∀ env' found data,
      source_api env' = Ok found → status_code found = 200 →
      json found = Ok data → data !! "tweets" = Some [] →
      (fetch_list_tweets env' w).1 = (fetch_list_tweets env w).1.
Proof.
  intros Hget Hstatus.
  assert (Hfail : fetch_list_tweets env w
    = (Ok [], printed (text response)
              (printed ("Error fetching tweets: "
                        +:+ pretty (status_code response)) w))).
  { unfold fetch_list_tweets, mbind, M_bind, lift. rewrite Hget.
    apply Z.eqb_neq in Hstatus. by rewrite Hstatus. }
  split; [exact Hfail|].
  intros env' found data Hget' H200 Hjson Htweets. rewrite Hfail.
  unfold fetch_list_tweets, mbind, M_bind, lift. rewrite Hget', H200, Hjson.
  unfold getkey. by rewrite Htweets.
Qed.

Lemma fetch_failure_returns_empty_witness :
  source_api (failing_env (mkResponse 503 "Service Unavailable" (Raise JSONDecodeError)))
  = Ok (mkResponse 503 "Service Unavailable" (Raise JSONDecodeError))
  ∧ status_code (mkResponse 503 "Service Unavailable" (Raise JSONDecodeError)) ≠ 200
  ∧ fetch_list_tweets
      (failing_env (mkResponse 503 "Service Unavailable" (Raise JSONDecodeError)))
      empty_world
    = (Ok [], mkWorld ∅ ["Error fetching tweets: 503"; "Service Unavailable"] [] [] 0)
  ∧ (fetch_list_tweets
       (failing_env (mkResponse 200 "{}" (Ok {["tweets" := []]}))) empty_world).1
    = (fetch_list_tweets
         (failing_env (mkResponse 503 "Service Unavailable" (Raise JSONDecodeError)))
         empty_world).1.
Proof.
  assert (H503 : status_code (mkResponse 503 "Service Unavailable"
                                (Raise JSONDecodeError)) ≠ 200)
    by (simpl; lia).
  split; [reflexivity|]. split; [exact H503|].
  destruct (fetch_failure_returns_empty
              (failing_env (mkResponse 503 "Service Unavailable" (Raise JSONDecodeError)))
              (mkResponse 503 "Service Unavailable" (Raise JSONDecodeError))
              empty_world eq_refl H503) as [Hrun Hsame].
  split; [exact Hrun|].
  apply (Hsame (failing_env (mkResponse 200 "{}" (Ok {["tweets" := []]})))
           (mkResponse 200 "{}" (Ok {["tweets" := []]})) {["tweets" := []]});
    reflexivity.
Defined.

(** C7, as stated, fails: the reply ["Score: 15/10"] is scored 15, which is
    neither in 1 to 10 nor 0. *)
Lemma score_in_range_counterexample :
  ¬ score_in_range sample_tweet "Score: 15/10".
Proof.
  unfold score_in_range.
  replace (score (analysis_of_reply sample_tweet "Score: 15/10")) with 15
    by (vm_compute; reflexivity).
  lia.
Qed.

(** C7, amended.  The score is the integer extracted from the first line
    when the extraction succeeds and 0 when it raises; the extracted integer
    is whatever the model wrote between the colon and the slash (any integer
    of at most [int_max_str_digits] digits), inside 1 to 10 or not. *)
Theorem score_is_written_integer (tweet : Tweet) (reply : string) :
  ((∃ z, extract_score_try reply = Ok z
         ∧ score (analysis_of_reply tweet reply) = z)
   ∨ (∃ e, extract_score_try reply = Raise e
           ∧ score (analysis_of_reply tweet reply) = 0))
  ∧ ∀ label (z : Z) rest,
      first_line reply = label +:+ ": " +:+ pretty z +:+ "/10" +:+ rest →
      mem_char ":" label = false →
      Z.abs z < 10 ^ Z.of_nat int_max_str_digits →
      score (analysis_of_reply tweet reply) = z.
Proof.
  split; [apply extract_score_cases|].
  intros label z rest. apply extract_score_written.
Qed.

Lemma score_is_written_integer_witness :
  first_line "Score: -3/10" = "Score" +:+ ": " +:+ pretty (-3) +:+ "/10" +:+ EmptyString
  ∧ mem_char ":" "Score" = false
  ∧ Z.abs (-3) < 10 ^ Z.of_nat int_max_str_digits
  ∧ score (analysis_of_reply sample_tweet "Score: -3/10") = -3.
Proof.
  split; [vm_compute; reflexivity|]. split; [reflexivity|].
  split; [vm_compute; reflexivity|].
  apply (proj2 (score_is_written_integer sample_tweet "Score: -3/10")
           "Score" (-3) EmptyString);
    vm_compute; reflexivity.
Defined.

(** C8. A run of the orchestrator always ends normally; after the scoring
    script it starts the notification script if and only if the file
    [twitter_digest.md] exists; when the file does not exist the run starts
    the two first scripts only, posts nothing and leaves the files as the
    scoring script left them. *)
Theorem notify_iff_digest_exists (env : Env) (w : World) :
  let scored := after_scoring env w in
  let final := (run_full_workflow env w).2 in
  (run_full_workflow env w).1 = Ok tt
  ∧ (["python"; "send_notification.py"] ∈ spawned_by_run env w
     ↔ is_Some (files scored !! "twitter_digest.md"))
  ∧ (is_Some (files scored !! "twitter_digest.md") →
     spawned_by_run env w
     = [["python"; "fetch_tweets.py"]; ["python"; "analyze_tweets.py"];
        ["python"; "send_notification.py"]])
  ∧ (files scored !! "twitter_digest.md" = None →
     spawned_by_run env w
     = [["python"; "fetch_tweets.py"]; ["python"; "analyze_tweets.py"]]
     ∧ posted final = posted w
     ∧ files final = files scored).
Proof.
  intros scored final.
  destruct (run_full_workflow_effect env w) as (Hok & Hfiles & Hcases).
  fold scored final in Hfiles, Hcases.
  split; [exact Hok|].
  destruct (files scored !! "twitter_digest.md") as [digest|];
    destruct Hcases as [Hspawned Hposted]; rewrite Hspawned.
  - split; [split; [by eexists|intros _]|].
    { do 2 apply list_elem_of_further. apply list_elem_of_here. }
    split; [done|]. intros [=].
  - split.
    { split; [|by intros [? [=]]].
      intros Hin. repeat (apply elem_of_cons in Hin as [[=]|Hin]).
      by apply elem_of_nil in Hin. }
    split; [by intros [? [=]]|]. done.
Qed.

Lemma notify_iff_digest_exists_witness :
  is_Some (files (after_scoring (answering_env "Score: 9/10") empty_world)
             !! "twitter_digest.md")
  ∧ spawned_by_run (answering_env "Score: 9/10") empty_world
    = [["python"; "fetch_tweets.py"]; ["python"; "analyze_tweets.py"];
       ["python"; "send_notification.py"]]
  ∧ files (after_scoring (sample_env "Score: 9/10") empty_world)
      !! "twitter_digest.md" = None
  ∧ spawned_by_run (sample_env "Score: 9/10") empty_world
    = [["python"; "fetch_tweets.py"]; ["python"; "analyze_tweets.py"]]
  ∧ posted (run_full_workflow (sample_env "Score: 9/10") empty_world).2 = [].
Proof.
  assert (Hsome : is_Some (files (after_scoring (answering_env "Score: 9/10")
                                    empty_world) !! "twitter_digest.md"))
    by (eexists; vm_compute; reflexivity).
  assert (Hnone : files (after_scoring (sample_env "Score: 9/10") empty_world)
                    !! "twitter_digest.md" = None)
    by (vm_compute; reflexivity).
  split; [exact Hsome|].
  split; [exact (proj1 (proj2 (proj2 (notify_iff_digest_exists
                   (answering_env "Score: 9/10") empty_world))) Hsome)|].
  split; [exact Hnone|].
  destruct (proj2 (proj2 (proj2 (notify_iff_digest_exists
              (sample_env "Score: 9/10") empty_world))) Hnone) as (Hs & Hp & _).
  split; [exact Hs|exact Hp].
Defined.



(** C10. Score extraction is total: whatever the reply, the scorer returns
    an analysis, and its score is the extracted integer or 0.  The body of
    the [try] raises nothing but [IndexError] and [ValueError], and the
    score is 0 when the first line has no colon (a bare number such as
    ["8"] included), when only white space stands between the colon and the
    slash, when a character that is neither a digit, a sign, an underscore
    nor white space stands between them, and in general whenever the text
    between them does not write an integer (as ["7-8"], ["-"], ["1 0"] and
    ["1__0"] do not); when it writes one, that integer is the score.  The
    same holds without a slash: the score is 0 whenever no score can be
    read from the first line. *)
Theorem extract_score_total (reply : string) :
  (∀ env tweet w, chat env (completions w) tweet = Ok reply →
     ∃ w', analyze_tweet_relevance env tweet w
           = (Ok (analysis_of_reply tweet reply), w'))
  ∧ ((∃ z, extract_score_try reply = Ok z ∧ extract_score reply = z)
     ∨ (∃ e, extract_score_try reply = Raise e ∧ extract_score reply = 0))
  ∧ (mem_char ":" (first_line reply) = false → extract_score reply = 0)
  ∧ (∀ z : Z, first_line reply = pretty z → extract_score reply = 0)
  ∧ (∀ label token rest,
       score_line_parts reply label token rest →
       all_space token = true → extract_score reply = 0)
  ∧ (∀ label token rest c,
       score_line_parts reply label token rest →
       mem_char c token = true → token_char c = false →
       extract_score reply = 0)
  ∧ (∀ label token rest,
       score_line_parts reply label token rest →
       (∀ z, ¬ integer_text all_space all_int_space token z) →
       extract_score reply = 0)
  ∧ (∀ label token rest z,
       score_line_parts reply label token rest →
       integer_text all_space all_int_space token z →
       extract_score reply = z)
  ∧ (∀ e, extract_score_try reply = Raise e →
       (e = IndexError ∧ mem_char ":" (first_line reply) = false)
       ∨ (e = ValueError ∧ mem_char ":" (first_line reply) = true))
  ∧ (unparseable reply → extract_score reply = 0).
Proof.
  split; [intros env tweet w; apply analyze_tweet_relevance_run|].
  split; [apply extract_score_cases|].
  assert (Hcolon : mem_char ":" (first_line reply) = false → extract_score reply = 0).
  { intros H. eapply extract_score_raise. by apply extract_score_try_no_colon. }
  split; [exact Hcolon|]. split; [|split; [|split; [|split; [|split; [|split]]]]].
  - intros z Hz. apply Hcolon. rewrite Hz. by apply pretty_Z_without.
  - intros label token rest Hparts Hspace.
    apply (extract_score_raise _ ValueError).
    rewrite (extract_score_try_token _ _ _ _ Hparts).
    by rewrite lstrip_all_space.
  - intros label token rest c Hparts Hc Hn.
    apply (extract_score_raise _ ValueError).
    rewrite (extract_score_try_token _ _ _ _ Hparts).
    apply (int_raises_on c); [|done].
    apply mem_char_lstrip_keep; [|done].
    destruct (is_space c) eqn:E; [|done].
    apply is_space_token_char in E. congruence.
  - intros label token rest Hparts Hnone. unfold extract_score.
    rewrite (extract_score_try_token _ _ _ _ Hparts).
    destruct (int (lstrip token)) as [z|e] eqn:E; [|done].
    apply int_lstrip_literal in E. by destruct (Hnone z).
  - intros label token rest z Hparts Hz. unfold extract_score.
    rewrite (extract_score_try_token _ _ _ _ Hparts).
    apply int_lstrip_literal in Hz. by rewrite Hz.
  - intros e [[-> H]|[-> (label & raw & stop & Hfield & _)]]%extract_score_try_raises.
    + by left.
    + right. split; [done|]. by eapply score_field_colon.
  - intros [e Hraise]%unparseable_raises. by eapply extract_score_raise.
Qed.

Lemma extract_score_total_witness :
  extract_score "8" = 0
  ∧ extract_score "Score: /10" = 0
  ∧ extract_score "Score: high/10" = 0
  ∧ extract_score "Score: 7-8/10" = 0
  ∧ extract_score "Score: -/10" = 0
  ∧ extract_score "Score: 1 0/10" = 0
  ∧ extract_score "Score: 1__0/10" = 0
  ∧ extract_score "Score: 1_0/10" = 10
  ∧ extract_score "Score: high" = 0.
Proof.
  split; [|split; [|split; [|split; [|split; [|split; [|split; [|split]]]]]]].
  - apply (proj1 (proj2 (proj2 (proj2 (extract_score_total "8")))) 8).
    reflexivity.
  - apply (proj1 (proj2 (proj2 (proj2 (proj2 (extract_score_total "Score: /10")))))
             "Score" " " "10"); [|reflexivity].
    repeat split; vm_compute; reflexivity.
  - apply (proj1 (proj2 (proj2 (proj2 (proj2 (proj2
             (extract_score_total "Score: high/10"))))))
             "Score" " high" "10" "h"%char); [|reflexivity..].
    repeat split; vm_compute; reflexivity.
  - apply (proj1 (proj2 (proj2 (proj2 (proj2 (proj2 (proj2
             (extract_score_total "Score: 7-8/10")))))))
             "Score" " 7-8" "10").
    + repeat split; vm_compute; reflexivity.
    + intros z Hz. apply int_lstrip_literal in Hz. vm_compute in Hz. discriminate.
  - apply (proj1 (proj2 (proj2 (proj2 (proj2 (proj2 (proj2
             (extract_score_total "Score: -/10")))))))
             "Score" " -" "10").
    + repeat split; vm_compute; reflexivity.
    + intros z Hz. apply int_lstrip_literal in Hz. vm_compute in Hz. discriminate.
  - apply (proj1 (proj2 (proj2 (proj2 (proj2 (proj2 (proj2
             (extract_score_total "Score: 1 0/10")))))))
             "Score" " 1 0" "10").
    + repeat split; vm_compute; reflexivity.
    + intros z Hz. apply int_lstrip_literal in Hz. vm_compute in Hz. discriminate.
  - apply (proj1 (proj2 (proj2 (proj2 (proj2 (proj2 (proj2
             (extract_score_total "Score: 1__0/10")))))))
             "Score" " 1__0" "10").
    + repeat split; vm_compute; reflexivity.
    + intros z Hz. apply int_lstrip_literal in Hz. vm_compute in Hz. discriminate.
  - apply (proj1 (proj2 (proj2 (proj2 (proj2 (proj2 (proj2 (proj2
             (extract_score_total "Score: 1_0/10"))))))))
             "Score" " 1_0" "10").
    + repeat split; vm_compute; reflexivity.
    + apply int_lstrip_literal. vm_compute. reflexivity.
  - apply (proj2 (proj2 (proj2 (proj2 (proj2 (proj2 (proj2 (proj2 (proj2
             (extract_score_total "Score: high")))))))))).
    right. exists "Score", " high", EmptyString. split.
    + repeat split; try (vm_compute; reflexivity). by left.
    + intros z Hz. apply int_strip_literal in Hz. vm_compute in Hz. discriminate.
Defined.

(** ** Further properties of the stages *)

Section preserves_facts.
Context {A B C : Type} (proj : World → C).
Implicit Types (m : M A) (f : A → M B) (w : World).

Lemma preserves_bind m f :
  preserves proj m → (∀ a, preserves proj (f a)) → preserves proj (m ≫= f).
Proof.
  intros Hm Hf w. rewrite bind_run. specialize (Hm w).
  destruct (m w) as [[a|e] w']; [|exact Hm].
  by rewrite Hf.
Qed.

Lemma preserves_ret (a : A) : preserves proj (mret a : M A).
Proof. by intros w. Qed.

Lemma preserves_lift (r : Result A) : preserves proj (lift r).
Proof. by intros w. Qed.

Lemma preserves_read_file path : preserves proj (read_file path).
Proof. intros w. unfold read_file. by destruct (files w !! path). Qed.

Lemma preserves_mapM (g : A → M B) (l : list A) :
  (∀ a, preserves proj (g a)) → preserves proj (mapM g l).
Proof.
  intros Hg. induction l as [|a l IH]; simpl; [by intros w|].
  intros w. rewrite bind_run. specialize (Hg a w).
  destruct (g a w) as [[b|e] w1]; [|exact Hg].
  rewrite bind_run. specialize (IH w1).
  destruct (mapM g l w1) as [[bs|e] w2]; simpl in *; congruence.
Qed.
End preserves_facts.

Section collector_facts.
Variable env : Env.
Implicit Types (w : World) (tweets : list Tweet).

Lemma fetch_tweets_main_run w :
  fetch_tweets_main env w
  = match fetch_list_tweets env w with
    | (Ok tweets, w') =>
        let kept := filter_tweets_by_engagement tweets MIN_LIKES in
        (Ok tt,
         printed ("Saved " +:+ pretty (length kept) +:+ " tweets for analysis")
           (written "tweets_for_analysis.json" (json_dump env kept)
              (printed ("Filtered to " +:+ pretty (length kept)
                        +:+ " tweets with " +:+ pretty MIN_LIKES +:+ "+ likes")
                 (printed ("Fetched " +:+ pretty (length tweets)
                           +:+ " tweets from list") w'))))
    | (Raise e, w') => (Raise e, w')
    end.
Proof.
  unfold fetch_tweets_main. rewrite bind_run.
  by destruct (fetch_list_tweets env w) as [[tweets|e] w'].
Qed.

Lemma fetch_list_tweets_ok response data tweets w :
  source_api env = Ok response → status_code response = 200 →
  json response = Ok data → data !! "tweets" = Some tweets →
  fetch_list_tweets env w = (Ok tweets, w).
Proof.
  intros Hget H200 Hjson Hkey. unfold fetch_list_tweets, lift.
  rewrite bind_run, Hget, H200. cbn [Z.eqb Pos.eqb].
  rewrite bind_run, Hjson. unfold getkey. by rewrite Hkey.
Qed.

Lemma fetch_list_tweets_error response w :
  source_api env = Ok response → status_code response ≠ 200 →
  fetch_list_tweets env w
  = (Ok [], printed (text response)
              (printed ("Error fetching tweets: "
                        +:+ pretty (status_code response)) w)).
Proof.
  intros Hget Hstatus. unfold fetch_list_tweets, lift. rewrite bind_run, Hget.
  apply Z.eqb_neq in Hstatus. by rewrite Hstatus.
Qed.

(** The fetch script writes one file and leaves the others, the posts and
    the request count alone. *)
Lemma fetch_tweets_main_frame w :
  posted (fetch_tweets_main env w).2 = posted w
  ∧ completions (fetch_tweets_main env w).2 = completions w
  ∧ ∀ path, path ≠ "tweets_for_analysis.json" →
            files (fetch_tweets_main env w).2 !! path = files w !! path.
Proof.
  rewrite fetch_tweets_main_run.
  assert (Hframe : posted (fetch_list_tweets env w).2 = posted w
                   ∧ completions (fetch_list_tweets env w).2 = completions w
                   ∧ files (fetch_list_tweets env w).2 = files w).
  { unfold fetch_list_tweets, lift. rewrite bind_run.
    destruct (source_api env) as [response|e]; [|done].
    destruct (status_code response =? 200); [|done].
    rewrite bind_run. destruct (json response) as [data|e]; [|done].
    unfold getkey. by destruct (data !! "tweets"). }
  destruct (fetch_list_tweets env w) as [[tweets|e] w'];
    cbn [fst snd files posted completions printed written] in *;
    destruct Hframe as (-> & -> & ->); [|done].
  repeat split. intros path Hpath. by rewrite lookup_insert_ne.
Qed.
End collector_facts.

(** X1. When the source API answers 200 with a list of tweets, the fetch
    script writes to [tweets_for_analysis.json] the dump of the tweets with
    at least 10 likes, prints the three counts, and neither posts nor asks
    the model anything. *)
Theorem fetch_tweets_main_persists_filtered (env : Env) (response : Response)
    (data : gmap string (list Tweet)) (tweets : list Tweet) (w : World) :
  source_api env = Ok response →
  status_code response = 200 →
  json response = Ok data →
  data !! "tweets" = Some tweets →
  let kept := filter_tweets_by_engagement tweets 10 in
  let w' := (fetch_tweets_main env w).2 in
  (fetch_tweets_main env w).1 = Ok tt
  ∧ files w' = <["tweets_for_analysis.json" := json_dump env kept]> (files w)
  ∧ stdout w'
    = stdout w
      ++ ["Fetched " +:+ pretty (length tweets) +:+ " tweets from list";
          "Filtered to " +:+ pretty (length kept) +:+ " tweets with 10+ likes";
          "Saved " +:+ pretty (length kept) +:+ " tweets for analysis"]
  ∧ posted w' = posted w
  ∧ completions w' = completions w.
Proof.
  intros Hget H200 Hjson Hkey kept w'. subst w'.
  rewrite fetch_tweets_main_run.
  rewrite (fetch_list_tweets_ok env _ _ _ w Hget H200 Hjson Hkey). cbn [fst snd files stdout posted completions printed written].
  repeat split; try reflexivity. by rewrite <- !app_assoc.
Qed.

Lemma fetch_tweets_main_persists_filtered_witness :
  files (fetch_tweets_main two_tweets_env empty_world).2
  = {["tweets_for_analysis.json" := json_dump two_tweets_env [tweet_with_likes 15]]}
  ∧ stdout (fetch_tweets_main two_tweets_env empty_world).2
    = ["Fetched 2 tweets from list"; "Filtered to 1 tweets with 10+ likes";
       "Saved 1 tweets for analysis"].
Proof.
  destruct (fetch_tweets_main_persists_filtered two_tweets_env
              two_tweets_response {["tweets" := two_tweets]} two_tweets
              empty_world eq_refl eq_refl eq_refl eq_refl)
    as (_ & Hfiles & Hout & _).
  split; [exact Hfiles|exact Hout].
Defined.

(** X2. When the source API answers with another status than 200, the fetch
    script still ends normally and overwrites [tweets_for_analysis.json]
    with the dump of the empty list. *)
Theorem fetch_tweets_main_error_status_overwrites (env : Env)
    (response : Response) (w : World) :
  source_api env = Ok response →
  status_code response ≠ 200 →
  (fetch_tweets_main env w).1 = Ok tt
  ∧ files (fetch_tweets_main env w).2
    = <["tweets_for_analysis.json" := json_dump env []]> (files w)
  ∧ stdout (fetch_tweets_main env w).2
    = stdout w
      ++ ["Error fetching tweets: " +:+ pretty (status_code response);
          text response;
          "Fetched 0 tweets from list";
          "Filtered to 0 tweets with 10+ likes";
          "Saved 0 tweets for analysis"].
Proof.
  intros Hget Hstatus. rewrite fetch_tweets_main_run.
  rewrite (fetch_list_tweets_error env _ w Hget Hstatus). cbn [fst snd files stdout printed written].
  repeat split; try reflexivity. by rewrite <- !app_assoc.
Qed.

Lemma fetch_tweets_main_error_status_overwrites_witness :
  files stale_world !! "tweets_for_analysis.json" = Some "[yesterday's tweets]"
  ∧ files (fetch_tweets_main (failing_env refused) stale_world).2
      !! "tweets_for_analysis.json"
    = Some (json_dump (failing_env refused) []).
Proof.
  split; [vm_compute; reflexivity|].
  destruct (fetch_tweets_main_error_status_overwrites (failing_env refused)
              refused stale_world eq_refl) as (_ & Hfiles & _).
  { simpl. lia. }
  rewrite Hfiles. apply lookup_insert_eq.
Defined.

(** X3. When the request raises, or the 200 body is not JSON or has no
    ["tweets"] key, the fetch script ends with that exception and leaves
    the world, an older tweets file included, as it was. *)
Theorem fetch_tweets_main_exception_leaves_world (env : Env) (w : World) (e : Exn) :
  source_api env = Raise e
  ∨ (∃ response, source_api env = Ok response ∧ status_code response = 200
       ∧ (json response = Raise e
          ∨ ∃ data, json response = Ok data ∧ data !! "tweets" = None
                    ∧ e = KeyError)) →
  fetch_tweets_main env w = (Raise e, w).
Proof.
  intros Hcause. rewrite fetch_tweets_main_run.
  assert (Hfetch : fetch_list_tweets env w = (Raise e, w)); [|by rewrite Hfetch].
  unfold fetch_list_tweets, lift. rewrite bind_run.
  destruct Hcause as [->|(response & -> & -> & Hbody)]; [done|].
  cbn [Z.eqb Pos.eqb]. rewrite bind_run.
  destruct Hbody as [->|(data & -> & Hkey & ->)]; [done|].
  unfold getkey. by rewrite Hkey.
Qed.

Lemma fetch_tweets_main_exception_leaves_world_witness :
  fetch_tweets_main (failing_env (mkResponse 200 "{}" (Ok ∅))) stale_world
  = (Raise KeyError, stale_world).
Proof.
  apply fetch_tweets_main_exception_leaves_world.
  right. exists (mkResponse 200 "{}" (Ok ∅)).
  split; [reflexivity|]. split; [reflexivity|].
  right. exists ∅. split; [reflexivity|]. split; reflexivity.
Defined.

Section scoring_facts.
Variable env : Env.
Implicit Types (w : World) (tweets : list Tweet) (analyses : list Analysis).

Lemma analyze_tweet_relevance_step t w :
  analyze_tweet_relevance env t w
  = match chat env (completions w) t with
    | Ok reply => (Ok (analysis_of_reply t reply), completing w)
    | Raise e => (Raise e, completing w)
    end.
Proof.
  unfold analyze_tweet_relevance, chat_completion. rewrite bind_run.
  by destruct (chat env (completions w) t).
Qed.

(** The comprehension over the tweets: one request per tweet, numbered from
    the count the world holds, and one analysis per tweet, in order. *)
Lemma mapM_analyze_ok tweets w analyses w' :
  mapM (analyze_tweet_relevance env) tweets w = (Ok analyses, w') →
  files w' = files w ∧ stdout w' = stdout w
  ∧ completions w' = (completions w + length tweets)%nat
  ∧ Forall2 (λ t a, a = analysis_of_reply t (analysis a)) tweets analyses
  ∧ ∀ i a, analyses !! i = Some a →
           chat env (completions w + i) (tweet a) = Ok (analysis a).
Proof.
  revert w analyses. induction tweets as [|t tweets IH]; intros w analyses.
  - intros [= <- <-]. repeat split; try done; simpl; lia.
  - cbn [mapM]. rewrite bind_run, analyze_tweet_relevance_step.
    destruct (chat env (completions w) t) as [reply|e] eqn:Hchat; [|done].
    rewrite bind_run.
    destruct (mapM (analyze_tweet_relevance env) tweets (completing w))
      as [[rest|e] w1] eqn:Hrest; [|done].
    intros [= <- <-].
    destruct (IH _ _ Hrest) as (Hf & Hs & Hc & Hall & Hchats).
    cbn [files stdout completions completing] in *.
    split; [done|]. split; [done|]. split; [simpl; lia|].
    split; [by constructor|].
    intros [|i] a; simpl.
    + intros [= <-]. simpl. by rewrite Nat.add_0_r.
    + intros Ha. rewrite <- (Hchats i a Ha). f_equal. lia.
Qed.

Lemma mapM_analyze_all_ok tweets w :
  (∀ i t, tweets !! i = Some t → ∃ reply, chat env (completions w + i) t = Ok reply) →
  ∃ analyses w', mapM (analyze_tweet_relevance env) tweets w = (Ok analyses, w').
Proof.
  revert w. induction tweets as [|t tweets IH]; intros w Hall.
  - by eexists _, _.
  - cbn [mapM]. rewrite bind_run, analyze_tweet_relevance_step.
    destruct (Hall 0%nat t eq_refl) as [reply Hreply].
    rewrite Nat.add_0_r in Hreply. rewrite Hreply, bind_run.
    destruct (IH (completing w)) as (rest & w1 & ->).
    { intros i t' Ht'. destruct (Hall (S i) t' Ht') as [r Hr].
      exists r. rewrite <- Hr. simpl. f_equal. lia. }
    by eexists _, _.
Qed.

(** One failing request stops the comprehension: the requests before it
    were made, the analyses they gave are dropped. *)
Lemma mapM_analyze_fail before t after w e :
  (∀ i t', before !! i = Some t' →
           ∃ reply, chat env (completions w + i) t' = Ok reply) →
  chat env (completions w + length before) t = Raise e →
  ∃ w', mapM (analyze_tweet_relevance env) (before ++ t :: after) w = (Raise e, w')
        ∧ files w' = files w ∧ stdout w' = stdout w ∧ posted w' = posted w
        ∧ completions w' = S (completions w + length before).
Proof.
  revert w. induction before as [|b before IH]; intros w Hbefore Hfail.
  - simpl in *. rewrite Nat.add_0_r in Hfail.
    rewrite bind_run, analyze_tweet_relevance_step, Hfail.
    eexists. split; [done|]. simpl. repeat split; f_equal; lia.
  - cbn [app mapM]. rewrite bind_run, analyze_tweet_relevance_step.
    destruct (Hbefore 0%nat b eq_refl) as [reply Hreply].
    rewrite Nat.add_0_r in Hreply. rewrite Hreply, bind_run.
    destruct (IH (completing w)) as (w' & -> & Hf & Hs & Hp & Hc).
    { intros i t' Ht'. destruct (Hbefore (S i) t' Ht') as [r Hr].
      exists r. rewrite <- Hr. simpl. f_equal. lia. }
    { rewrite <- Hfail. simpl. f_equal. lia. }
    exists w'. split; [done|]. cbn [files stdout posted completions completing] in *.
    repeat split; try done. simpl. lia.
Qed.

Lemma score_tweets_run w :
  score_tweets env w
  = match files w !! "tweets_for_analysis.json" with
    | None => (Raise FileNotFoundError, w)
    | Some data =>
        match json_load env (universal_newlines data) with
        | Raise e => (Raise e, w)
        | Ok tweets =>
            mapM (analyze_tweet_relevance env) tweets
              (printed ("Analyzing " +:+ pretty (length tweets)
                        +:+ " tweets for relevance...") w)
        end
    end.
Proof.
  unfold score_tweets, load_tweets, read_file, lift. rewrite !bind_run.
  destruct (files w !! "tweets_for_analysis.json") as [data|]; [|done].
  destruct (json_load env (universal_newlines data)) as [tweets|e]; [|done].
  by rewrite bind_run.
Qed.

Lemma preserves_files_score_tweets : preserves files (score_tweets env).
Proof.
  apply preserves_bind.
  { apply preserves_bind; [apply preserves_read_file|]. intros data.
    apply preserves_lift. }
  intros tweets. apply preserves_bind; [by intros w|]. intros _.
  apply preserves_mapM. intros t w. by rewrite analyze_tweet_relevance_step;
    destruct (chat env (completions w) t).
Qed.

Lemma analyze_tweets_main_abort w e :
  (score_tweets env w).1 = Raise e →
  (analyze_tweets_main env w).1 = Raise e
  ∧ files (analyze_tweets_main env w).2 = files w
  ∧ posted (analyze_tweets_main env w).2 = posted w.
Proof.
  intros Hraise. rewrite analyze_tweets_main_run.
  pose proof (preserves_files_score_tweets w) as Hf.
  destruct (quiet_score_tweets env w) as [_ Hp].
  destruct (score_tweets env w) as [[analyses|e'] w']; [done|].
  simpl in *. by injection Hraise as ->.
Qed.
End scoring_facts.

(** X4. What [save_tweets_for_analysis] writes is what [load_tweets] reads:
    for a list the JSON codec round-trips, loading after saving returns the
    list. *)
Theorem save_then_load_tweets (env : Env) (tweets : list Tweet) (w : World) :
  json_load env (universal_newlines (json_dump env tweets)) = Ok tweets →
  (load_tweets env (save_tweets_for_analysis env tweets w).2).1 = Ok tweets
  ∧ (save_tweets_for_analysis env tweets w).1 = Ok tt.
Proof.
  intros Hcodec. unfold save_tweets_for_analysis, load_tweets, read_file, lift.
  rewrite !bind_run. cbn [write_file print fst snd files printed written].
  by rewrite lookup_insert_eq, Hcodec.
Qed.

Lemma save_then_load_tweets_witness :
  json_load (answering_env "-")
    (universal_newlines (json_dump (answering_env "-") [sample_tweet]))
  = Ok [sample_tweet]
  ∧ (load_tweets (answering_env "-")
       (save_tweets_for_analysis (answering_env "-") [sample_tweet] empty_world).2).1
    = Ok [sample_tweet].
Proof.
  split; [reflexivity|].
  exact (proj1 (save_then_load_tweets (answering_env "-") [sample_tweet]
                  empty_world eq_refl)).
Defined.

(** X5. Without [tweets_for_analysis.json] the scoring script ends with
    [FileNotFoundError] before printing, asking the model or writing a
    digest. *)
Theorem analyze_tweets_main_without_input (env : Env) (w : World) :
  files w !! "tweets_for_analysis.json" = None →
  analyze_tweets_main env w = (Raise FileNotFoundError, w).
Proof.
  intros Hnone. by rewrite analyze_tweets_main_run, score_tweets_run, Hnone.
Qed.

Lemma analyze_tweets_main_without_input_witness :
  files empty_world !! "tweets_for_analysis.json" = None
  ∧ analyze_tweets_main (answering_env "Score: 9/10") empty_world
    = (Raise FileNotFoundError, empty_world).
Proof.
  split; [reflexivity|].
  apply analyze_tweets_main_without_input. reflexivity.
Defined.

(** X6. A scoring that returns has made exactly one completion request per
    loaded tweet, in the order of the file, and each analysis pairs its
    tweet with the reply to that tweet's request. *)
Theorem score_tweets_one_request_per_tweet (env : Env) (w : World)
    (analyses : list Analysis) :
  (score_tweets env w).1 = Ok analyses →
  (∃ data, files w !! "tweets_for_analysis.json" = Some data
           ∧ json_load env (universal_newlines data) = Ok (map tweet analyses))
  ∧ completions (score_tweets env w).2 = (completions w + length analyses)%nat
  ∧ ∀ i a, analyses !! i = Some a →
           chat env (completions w + i) (tweet a) = Ok (analysis a)
           ∧ a = analysis_of_reply (tweet a) (analysis a).
Proof.
  rewrite score_tweets_run.
  destruct (files w !! "tweets_for_analysis.json") as [data|]; [|done].
  destruct (json_load env (universal_newlines data)) as [tweets|e] eqn:Hload;
    [|done].
  match goal with
  | |- context [mapM ?f tweets ?w0] =>
      destruct (mapM f tweets w0) as [[analyses'|e] w'] eqn:Hrun; [|done]
  end.
  intros [= ->].
  destruct (mapM_analyze_ok env _ _ _ _ Hrun) as (_ & _ & Hc & Hall & Hchats).
  assert (Htweets : map tweet analyses = tweets).
  { clear -Hall. induction Hall as [|t a ts as' Ha _ IH]; [done|].
    simpl. rewrite IH. f_equal. by rewrite Ha. }
  assert (Hlen : length analyses = length tweets) by by rewrite <- Htweets, length_map.
  split; [exists data; by rewrite Htweets|].
  split; [cbn [snd]; rewrite Hc, Hlen; reflexivity|].
  intros i a Ha. split; [exact (Hchats i a Ha)|].
  destruct (Forall2_lookup_r _ _ _ _ _ Hall Ha) as (t & _ & Heq).
  rewrite Heq at 1. by rewrite Heq.
Qed.

Lemma score_tweets_one_request_per_tweet_witness :
  (score_tweets (answering_env "Score: 9/10")
     (written "tweets_for_analysis.json" "[...]" empty_world)).1
  = Ok [analysis_of_reply sample_tweet "Score: 9/10"]
  ∧ completions (score_tweets (answering_env "Score: 9/10")
                   (written "tweets_for_analysis.json" "[...]" empty_world)).2
    = 1%nat.
Proof.
  assert (Hrun : (score_tweets (answering_env "Score: 9/10")
                    (written "tweets_for_analysis.json" "[...]" empty_world)).1
                 = Ok [analysis_of_reply sample_tweet "Score: 9/10"])
    by (vm_compute; reflexivity).
  split; [exact Hrun|].
  exact (proj1 (proj2 (score_tweets_one_request_per_tweet _ _ _ Hrun))).
Defined.

(** X7. One failing completion request aborts the scoring script: the
    script ends with that exception, writes no digest (the files are as
    before) and the requests made for the earlier tweets are lost. *)
Theorem analyze_tweets_main_failed_request_aborts (env : Env) (w : World)
    (data : string) (before after : list Tweet) (t : Tweet) (e : Exn) :
  files w !! "tweets_for_analysis.json" = Some data →
  json_load env (universal_newlines data) = Ok (before ++ t :: after) →
  (∀ i t', before !! i = Some t' →
           ∃ reply, chat env (completions w + i) t' = Ok reply) →
  chat env (completions w + length before) t = Raise e →
  (analyze_tweets_main env w).1 = Raise e
  ∧ files (analyze_tweets_main env w).2 = files w
  ∧ completions (analyze_tweets_main env w).2
    = S (completions w + length before).
Proof.
  intros Hfile Hload Hbefore Hfail.
  rewrite analyze_tweets_main_run, score_tweets_run, Hfile, Hload.
  destruct (mapM_analyze_fail env before t after
              (printed ("Analyzing " +:+ pretty (length (before ++ t :: after))
                        +:+ " tweets for relevance...") w) e Hbefore Hfail)
    as (w' & -> & Hf & _ & _ & Hc).
  by cbn [fst snd].
Qed.

Lemma analyze_tweets_main_failed_request_aborts_witness :
  (analyze_tweets_main flaky_env stale_world).1 = Raise APIError
  ∧ files (analyze_tweets_main flaky_env stale_world).2 !! "twitter_digest.md"
    = Some "yesterday's digest"
  ∧ completions (analyze_tweets_main flaky_env stale_world).2 = 2%nat.
Proof.
  destruct (analyze_tweets_main_failed_request_aborts flaky_env stale_world
              "[yesterday's tweets]" [tweet_with_likes 15] [tweet_with_likes 30]
              (tweet_with_likes 20) APIError eq_refl eq_refl)
    as (Hraise & Hfiles & Hcount).
  - intros [|i] t'; [intros _; by exists "Score: 9/10"|intros [=]].
  - reflexivity.
  - split; [exact Hraise|]. split; [by rewrite Hfiles|exact Hcount].
Defined.

Section notifier_stage_facts.
Variable env : Env.
Implicit Types (w : World) (digest : string).

Lemma append_length (s t : string) :
  String.length (s +:+ t) = (String.length s + String.length t)%nat.
Proof.
  induction s as [|c s IH]; [done|]. rewrite append_cons. simpl. by rewrite IH.
Qed.

Lemma send_notification_main_run w :
  send_notification_main env w
  = match files w !! "twitter_digest.md" with
    | None => (Raise FileNotFoundError, w)
    | Some digest =>
        let payload := discord_payload (universal_newlines digest) in
        match webhook env payload with
        | Raise e => (Raise e, posting payload w)
        | Ok response =>
            (Ok tt,
             if status_code response =? 204
             then printed "Digest sent to Discord successfully!"
                    (posting payload w)
             else printed (text response)
                    (printed ("Error sending to Discord: "
                              +:+ pretty (status_code response))
                       (posting payload w)))
        end
    end.
Proof.
  unfold send_notification_main, read_digest, read_file. rewrite bind_run.
  destruct (files w !! "twitter_digest.md") as [digest|]; [|done].
  unfold send_to_discord, requests_post. rewrite bind_run.
  cbv zeta.
  destruct (webhook env (discord_payload (universal_newlines digest)))
    as [response|e]; [|done].
  by destruct (status_code response =? 204).
Qed.
End notifier_stage_facts.

(** X8. A post the webhook answers with another status than 204 is not an
    error of the notification script: the script ends normally, has posted
    once, and prints the status and the body.  What it posts is the digest
    as a read in text mode gives it: every carriage return, with the line
    feed that follows it if there is one, has become one line feed. *)
Theorem send_notification_main_rejected_post_is_not_an_error (env : Env)
    (w : World) (digest : string) (response : Response) :
  files w !! "twitter_digest.md" = Some digest →
  webhook env (discord_payload (universal_newlines digest)) = Ok response →
  status_code response ≠ 204 →
  (send_notification_main env w).1 = Ok tt
  ∧ posted (send_notification_main env w).2
    = posted w ++ [discord_payload (universal_newlines digest)]
  ∧ stdout (send_notification_main env w).2
    = stdout w ++ ["Error sending to Discord: " +:+ pretty (status_code response);
                   text response]
  ∧ files (send_notification_main env w).2 = files w.
Proof.
  intros Hfile Hpost Hstatus.
  rewrite send_notification_main_run, Hfile. cbv zeta. rewrite Hpost.
  apply Z.eqb_neq in Hstatus. rewrite Hstatus.
  cbn [fst snd posted stdout files printed posting].
  repeat split. by rewrite <- app_assoc.
Qed.

Lemma send_notification_main_rejected_post_is_not_an_error_witness :
  files carriage_world !! "twitter_digest.md"
  = Some ("yesterday's digest" +:+ CR +:+ LF +:+ "second line" +:+ CR)
  ∧ (send_notification_main (webhook_env 404 "Unknown Webhook") carriage_world).1
    = Ok tt
  ∧ posted (send_notification_main (webhook_env 404 "Unknown Webhook")
              carriage_world).2
    = [discord_payload ("yesterday's digest" +:+ LF +:+ "second line" +:+ LF)]
  ∧ stdout (send_notification_main (webhook_env 404 "Unknown Webhook")
              carriage_world).2
    = ["Error sending to Discord: 404"; "Unknown Webhook"].
Proof.
  split; [vm_compute; reflexivity|].
  destruct (send_notification_main_rejected_post_is_not_an_error
              (webhook_env 404 "Unknown Webhook") carriage_world
              ("yesterday's digest" +:+ CR +:+ LF +:+ "second line" +:+ CR)
              (mkResponse 404 "Unknown Webhook" (Raise JSONDecodeError)))
    as (Hok & Hpost & Hout & _).
  - vm_compute; reflexivity.
  - reflexivity.
  - simpl. lia.
  - split; [exact Hok|]. split; [exact Hpost|exact Hout].
Defined.

(** X9. Without [twitter_digest.md] the notification script ends with
    [FileNotFoundError] and posts nothing. *)
Theorem send_notification_main_without_digest (env : Env) (w : World) :
  files w !! "twitter_digest.md" = None →
  send_notification_main env w = (Raise FileNotFoundError, w).
Proof. intros Hnone. by rewrite send_notification_main_run, Hnone. Qed.

Lemma send_notification_main_without_digest_witness :
  files empty_world !! "twitter_digest.md" = None
  ∧ send_notification_main (webhook_env 204 EmptyString) empty_world
    = (Raise FileNotFoundError, empty_world).
Proof.
  split; [reflexivity|].
  apply send_notification_main_without_digest. reflexivity.
Defined.

(** X10. The description posted has the length of the digest when that is
    at most 2000, and 2003 otherwise: a truncated description is three
    characters longer than the limit it is cut at. *)
Theorem discord_description_length (digest : string) :
  String.length (discord_description digest)
  = (if (2000 <? String.length digest)%nat
     then 2003 else String.length digest)%nat.
Proof.
  unfold discord_description.
  destruct (2000 <? String.length digest)%nat eqn:E; [|done].
  apply Nat.ltb_lt in E.
  destruct (substring_first 2000 digest) as (rest & _ & Hlen); [lia|].
  rewrite append_length, Hlen. reflexivity.
Qed.

Section handoff_facts.
Variable env : Env.
Implicit Types (w : World).

Ltac run_steps :=
  repeat first
    [ rewrite bind_run
    | rewrite subprocess_run_fetch
    | progress cbn [print snd] ].

(** What the scoring script finds when the orchestrator starts it. *)
Lemma scoring_start_frame w :
  files (scoring_start env w) = files (fetch_tweets_main env
            (spawning ["python"; "fetch_tweets.py"]
               (printed (LF +:+ "--- Fetching Tweets ---")
                  (printed "Starting Twitter Gateway workflow..." w)))).2
  ∧ completions (scoring_start env w) = completions w.
Proof.
  unfold scoring_start, workflow_to_scoring.
  run_steps. cbn [files completions spawning printed].
  split; [reflexivity|].
  match goal with
  | |- context [fetch_tweets_main env ?w0] =>
      destruct (fetch_tweets_main_frame env w0) as (_ & -> & _)
  end.
  reflexivity.
Qed.

Lemma scoring_start_other_files w path :
  path ≠ "tweets_for_analysis.json" →
  files (scoring_start env w) !! path = files w !! path.
Proof.
  intros Hpath. destruct (scoring_start_frame w) as [-> _].
  match goal with
  | |- context [fetch_tweets_main env ?w0] =>
      destruct (fetch_tweets_main_frame env w0) as (_ & _ & Hother)
  end.
  by rewrite Hother.
Qed.

Lemma mapM_analyze_total (reply : nat → Tweet → string) tweets w :
  (∀ n t, chat env n t = Ok (reply n t)) →
  (mapM (analyze_tweet_relevance env) tweets w).1
  = Ok (analyses_of reply (completions w) tweets).
Proof.
  intros Hchat. revert w. induction tweets as [|t tweets IH]; intros w; [done|].
  cbn [mapM]. rewrite bind_run, analyze_tweet_relevance_step, Hchat, bind_run.
  specialize (IH (completing w)).
  destruct (mapM (analyze_tweet_relevance env) tweets (completing w))
    as [[rest|e] w1]; simpl in IH; [|done].
  injection IH as ->. unfold analyses_of. simpl. rewrite Nat.add_0_r.
  do 2 f_equal. apply imap_ext. intros i t' _. simpl. do 2 f_equal. lia.
Qed.

(** The posts of a run whose scoring script returns with [analyses]. *)
Lemma run_full_workflow_scored w analyses :
  (score_tweets env (scoring_start env w)).1 = Ok analyses →
  posted (run_full_workflow env w).2
  = posted w ++ [discord_payload (universal_newlines (generate_digest analyses))].
Proof.
  intros Hscores.
  destruct (analyze_tweets_main_of_scores env _ _ Hscores) as [_ Hf].
  destruct (run_full_workflow_effect env w) as (_ & _ & Hcases).
  unfold after_scoring in Hcases. rewrite Hf in Hcases.
  by destruct Hcases as [_ ->].
Qed.
End handoff_facts.

(** X11. When a digest of an earlier run is on disk and the scoring script
    raises, the orchestrator still starts the notification script, which
    posts the old digest again, as a read in text mode gives it (carriage
    returns arrive as line feeds). *)
Theorem stale_digest_is_posted_again (env : Env) (w : World) (old : string) (e : Exn) :
  files w !! "twitter_digest.md" = Some old →
  scoring_outcome env w = Raise e →
  ["python"; "send_notification.py"] ∈ spawned_by_run env w
  ∧ posted (run_full_workflow env w).2
    = posted w ++ [discord_payload (universal_newlines old)].
Proof.
  intros Hold Hraise. unfold scoring_outcome in Hraise.
  assert (Hscore : (score_tweets env (scoring_start env w)).1 = Raise e).
  { revert Hraise. rewrite analyze_tweets_main_run.
    destruct (score_tweets env (scoring_start env w)) as [[analyses|e'] w'];
      cbn [fst]; [intros [=]|by intros [= ->]]. }
  destruct (analyze_tweets_main_abort env _ _ Hscore) as (_ & Hfiles & _).
  destruct (run_full_workflow_effect env w) as (_ & _ & Hcases).
  unfold after_scoring in Hcases.
  rewrite Hfiles, scoring_start_other_files, Hold in Hcases by done.
  destruct Hcases as [-> ->]. split; [|done].
  do 2 apply list_elem_of_further. apply list_elem_of_here.
Qed.

Lemma stale_digest_is_posted_again_witness :
  files carriage_world !! "twitter_digest.md"
  = Some ("yesterday's digest" +:+ CR +:+ LF +:+ "second line" +:+ CR)
  ∧ scoring_outcome flaky_env carriage_world = Raise APIError
  ∧ posted (run_full_workflow flaky_env carriage_world).2
    = [discord_payload ("yesterday's digest" +:+ LF +:+ "second line" +:+ LF)].
Proof.
  assert (Hold : files carriage_world !! "twitter_digest.md"
                 = Some ("yesterday's digest" +:+ CR +:+ LF +:+ "second line" +:+ CR))
    by (vm_compute; reflexivity).
  assert (Hraise : scoring_outcome flaky_env carriage_world = Raise APIError)
    by (vm_compute; reflexivity).
  split; [exact Hold|]. split; [exact Hraise|].
  exact (proj2 (stale_digest_is_posted_again flaky_env carriage_world
                  _ APIError Hold Hraise)).
Defined.



(** X13. End to end: when the three services answer, the digest written is
    the digest of the analyses of the fetched tweets with at least 10 likes,
    scored in their order, and the digest posted is that text as a read in
    text mode gives it (a carriage return in a tweet's text arrives as a
    line feed). *)
Theorem run_full_workflow_end_to_end (env : Env) (response : Response)
    (data : gmap string (list Tweet)) (tweets : list Tweet)
    (reply : nat → Tweet → string) (w : World) :
  source_api env = Ok response →
  status_code response = 200 →
  json response = Ok data →
  data !! "tweets" = Some tweets →
  json_load env
    (universal_newlines (json_dump env (filter_tweets_by_engagement tweets 10)))
  = Ok (filter_tweets_by_engagement tweets 10) →
  (∀ n t, chat env n t = Ok (reply n t)) →
  let analyses :=
    analyses_of reply (completions w) (filter_tweets_by_engagement tweets 10) in
  files (run_full_workflow env w).2 !! "twitter_digest.md"
  = Some (generate_digest analyses)
  ∧ posted (run_full_workflow env w).2
    = posted w
      ++ [discord_payload (universal_newlines (generate_digest analyses))].
Proof.
  intros Hget H200 Hjson Hkey Hcodec Hchat analyses.
  assert (Hscores : (score_tweets env (scoring_start env w)).1 = Ok analyses).
  { rewrite score_tweets_run. destruct (scoring_start_frame env w) as [-> Hc].
    rewrite fetch_tweets_main_run,
      (fetch_list_tweets_ok env _ _ _ _ Hget H200 Hjson Hkey).
    cbn [snd files printed written]. rewrite lookup_insert_eq.
    change MIN_LIKES with 10. rewrite Hcodec.
    rewrite (mapM_analyze_total env reply _ _ Hchat).
    cbn [completions printed]. by rewrite Hc. }
  split; [|by apply run_full_workflow_scored].
  destruct (analyze_tweets_main_of_scores env _ _ Hscores) as [_ Hf].
  destruct (run_full_workflow_effect env w) as (_ & -> & _).
  exact Hf.
Qed.

Lemma run_full_workflow_end_to_end_witness :
  posted (run_full_workflow two_tweets_env empty_world).2
  = [discord_payload
       (generate_digest [analysis_of_reply (tweet_with_likes 15) "Score: 8/10"])].
Proof.
  exact (proj2 (run_full_workflow_end_to_end two_tweets_env two_tweets_response
                  {["tweets" := two_tweets]} two_tweets (λ _ _, "Score: 8/10")
                  empty_world eq_refl eq_refl eq_refl eq_refl eq_refl
                  (λ _ _, eq_refl))).
Defined.

Section filter_more_facts.
Implicit Types (tweets : list Tweet) (k : Z).

Lemma filter_tweets_all tweets k :
  filter_tweets_by_engagement tweets k = tweets
  ↔ Forall (λ t, k ≤ favorite_count t) tweets.
Proof.
  split.
  - intros Heq. apply Forall_forall. intros t Ht.
    rewrite <- Heq in Ht. by apply filter_tweets_elem in Ht as [_ ?].
  - induction 1 as [|t tweets Ht _ IH]; [done|].
    unfold filter_tweets_by_engagement in *. simpl.
    apply geb_likes in Ht. by rewrite Ht, IH.
Qed.

Lemma filter_tweets_none tweets k :
  filter_tweets_by_engagement tweets k = []
  ↔ Forall (λ t, favorite_count t < k) tweets.
Proof.
  split.
  - intros Heq. apply Forall_forall. intros t Ht.
    destruct (decide (k ≤ favorite_count t)) as [Hk|Hk]; [|lia].
    assert (Hin : t ∈ filter_tweets_by_engagement tweets k)
      by by apply filter_tweets_elem.
    rewrite Heq in Hin. by apply elem_of_nil in Hin.
  - induction 1 as [|t tweets Ht _ IH]; [done|].
    unfold filter_tweets_by_engagement in *. simpl.
    destruct (favorite_count t >=? k) eqn:E; [|exact IH].
    apply geb_likes in E. lia.
Qed.
End filter_more_facts.

(** X20. Filtering twice is filtering once at the greater threshold, and
    raising the threshold only removes tweets. *)
Theorem filter_tweets_by_engagement_compose (tweets : list Tweet) (k k' : Z) :
  filter_tweets_by_engagement (filter_tweets_by_engagement tweets k) k'
  = filter_tweets_by_engagement tweets (Z.max k k')
  ∧ (k ≤ k' →
     filter_tweets_by_engagement tweets k'
       `sublist_of` filter_tweets_by_engagement tweets k).
Proof.
  assert (Hcompose :
    filter_tweets_by_engagement (filter_tweets_by_engagement tweets k) k'
    = filter_tweets_by_engagement tweets (Z.max k k')).
  { induction tweets as [|t tweets IH]; [done|].
    unfold filter_tweets_by_engagement in *. simpl.
    destruct (favorite_count t >=? k) eqn:Ek; simpl;
      destruct (favorite_count t >=? k') eqn:Ek';
      destruct (favorite_count t >=? Z.max k k') eqn:Em;
      rewrite ?IH; try reflexivity;
      rewrite ?Z.geb_le, ?Z.geb_leb, ?Z.leb_gt in *; lia. }
  split; [exact Hcompose|].
  intros Hle. replace k' with (Z.max k k') by lia.
  rewrite <- Hcompose. apply filter_tweets_sublist.
Qed.

Lemma filter_tweets_by_engagement_compose_witness :
  10 ≤ 20
  ∧ filter_tweets_by_engagement
      [tweet_with_likes 15; tweet_with_likes 5; tweet_with_likes 30] 20
    `sublist_of`
    filter_tweets_by_engagement
      [tweet_with_likes 15; tweet_with_likes 5; tweet_with_likes 30] 10.
Proof.
  assert (Hle : 10 ≤ 20) by lia.
  split; [exact Hle|].
  exact (proj2 (filter_tweets_by_engagement_compose _ 10 20) Hle).
Defined.

(** X21. The filter returns its input unchanged exactly when every tweet
    has enough likes, returns the empty list exactly when none has, and
    never returns more tweets than it was given. *)
Theorem filter_tweets_by_engagement_all_or_none (tweets : list Tweet) (k : Z) :
  (filter_tweets_by_engagement tweets k = tweets
   ↔ Forall (λ t, k ≤ favorite_count t) tweets)
  ∧ (filter_tweets_by_engagement tweets k = []
     ↔ Forall (λ t, favorite_count t < k) tweets)
  ∧ (length (filter_tweets_by_engagement tweets k) ≤ length tweets)%nat.
Proof.
  split; [apply filter_tweets_all|]. split; [apply filter_tweets_none|].
  apply sublist_length, filter_tweets_sublist.
Qed.

Section digest_more_facts.
Implicit Types (analyses items : list Analysis) (a : Analysis).

Lemma sorted_reverse_of_sorted {A} (key : A → Z) (l : list A) :
  StronglySorted (by_key_desc key) l → sorted_reverse key l = l.
Proof.
  induction 1 as [|x l Hl IH Hx]; [done|].
  unfold sorted_reverse in *. simpl. rewrite IH.
  destruct l as [|y l]; [done|]. simpl.
  apply Forall_cons in Hx as [Hy _]. unfold by_key_desc in Hy.
  apply Z.ltb_ge in Hy. by rewrite Hy.
Qed.

Lemma list_filter_all (P : Analysis → bool) items :
  Forall (λ a, P a = true) items → List.filter P items = items.
Proof.
  induction 1 as [|a items Ha _ IH]; [done|]. simpl. by rewrite Ha, IH.
Qed.

Lemma relevant_tweets_of_relevant items :
  Forall (λ a, 7 ≤ score a) items →
  StronglySorted (by_key_desc score) items →
  relevant_tweets items = items.
Proof.
  intros Hall Hsorted. unfold relevant_tweets.
  rewrite list_filter_all; [by apply sorted_reverse_of_sorted|].
  eapply Forall_impl; [exact Hall|]. intros a Ha. by apply Z.geb_le.
Qed.

Lemma relevant_tweets_nil analyses :
  relevant_tweets analyses = [] ↔ Forall (λ a, score a < 7) analyses.
Proof.
  split.
  - intros Hnil. apply Forall_forall. intros a Ha.
    destruct (decide (7 ≤ score a)) as [H7|H7]; [|lia].
    assert (Hin : a ∈ relevant_tweets analyses) by by apply relevant_tweets_elem.
    rewrite Hnil in Hin. by apply elem_of_nil in Hin.
  - intros Hall. destruct (relevant_tweets analyses) as [|a items] eqn:E; [done|].
    assert (Hin : a ∈ relevant_tweets analyses) by (rewrite E; apply list_elem_of_here).
    apply relevant_tweets_elem in Hin as [Hin H7].
    rewrite Forall_forall in Hall. specialize (Hall a Hin). lia.
Qed.

Lemma below_or_relevant analyses :
  Forall (λ a, score a < 7) analyses ∨ Exists (λ a, 7 ≤ score a) analyses.
Proof.
  induction analyses as [|a analyses [Hall|Hex]]; [by left| |].
  - destruct (decide (7 ≤ score a)) as [H7|H7].
    + right. by apply Exists_cons_hd.
    + left. apply Forall_cons. split; [lia|done].
  - right. by apply Exists_cons_tl.
Qed.

Lemma occurs_in_refl (s : string) : occurs_in s s.
Proof. exists EmptyString, EmptyString. by rewrite append_empty_l, append_empty_r. Qed.

Lemma occurs_in_trans (s t u : string) : occurs_in s t → occurs_in t u → occurs_in s u.
Proof.
  intros (b1 & a1 & ->) (b2 & a2 & ->).
  exists (b2 +:+ b1), (a1 +:+ a2). by rewrite !append_assoc.
Qed.

Lemma occurs_in_app_l (s t u : string) : occurs_in s t → occurs_in s (t +:+ u).
Proof.
  intros (b & a & ->). exists b, (a +:+ u). by rewrite !append_assoc.
Qed.

Lemma occurs_in_app_r (s t u : string) : occurs_in s u → occurs_in s (t +:+ u).
Proof.
  intros (b & a & ->). exists (t +:+ b), a. by rewrite !append_assoc.
Qed.
End digest_more_facts.

(** X15. The digest is the sentinel text exactly when no analysis has a
    score of 7 or more (the empty list included); when some analysis has
    one, the digest is the header followed by the sections of the relevant
    items, and so is not the sentinel text. *)
Theorem generate_digest_sentinel_iff (analyses : list Analysis) :
  (generate_digest analyses = no_relevant_tweets
   ↔ Forall (λ a, score a < 7) analyses)
  ∧ (Exists (λ a, 7 ≤ score a) analyses →
     generate_digest analyses
     = digest_header +:+ render_sections (relevant_tweets analyses)
     ∧ generate_digest analyses ≠ no_relevant_tweets)
  ∧ (Forall (λ a, score a < 7) analyses ∨ Exists (λ a, 7 ≤ score a) analyses).
Proof.
  assert (Hiff : generate_digest analyses = no_relevant_tweets
                 ↔ Forall (λ a, score a < 7) analyses).
  { rewrite <- relevant_tweets_nil, generate_digest_render. unfold render_digest.
    destruct (relevant_tweets analyses) as [|a items]; [done|].
    split; [|done]. unfold digest_header, no_relevant_tweets.
    rewrite append_cons. intros [=]. }
  split; [exact Hiff|]. split.
  - intros (a & Hin & H7)%Exists_exists.
    assert (Hrel : a ∈ relevant_tweets analyses) by by apply relevant_tweets_elem.
    assert (Hnot : generate_digest analyses ≠ no_relevant_tweets).
    { intros Hall%Hiff. rewrite Forall_forall in Hall. specialize (Hall a Hin). lia. }
    split; [|exact Hnot].
    rewrite generate_digest_render. unfold render_digest.
    destruct (relevant_tweets analyses) as [|b items]; [|done].
    by apply elem_of_nil in Hrel.
  - apply below_or_relevant.
Qed.

Lemma generate_digest_sentinel_iff_witness :
  Exists (λ a, 7 ≤ score a) sample_analyses
  ∧ generate_digest sample_analyses
    = digest_header
      +:+ render_sections [scored "b" 9; scored "a" 7; scored "d" 7]
  ∧ Forall (λ a, score a < 7) [scored "c" 6; scored "e" 0]
  ∧ generate_digest [scored "c" 6; scored "e" 0] = no_relevant_tweets.
Proof.
  assert (Hex : Exists (λ a, 7 ≤ score a) sample_analyses).
  { apply Exists_cons_hd. simpl. lia. }
  assert (Hall : Forall (λ a, score a < 7) [scored "c" 6; scored "e" 0]).
  { repeat (apply Forall_cons; split; [simpl; lia|]). apply Forall_nil_2. }
  split; [exact Hex|]. split.
  - exact (proj1 (proj1 (proj2 (generate_digest_sentinel_iff sample_analyses)) Hex)).
  - split; [exact Hall|].
    exact (proj2 (proj1 (generate_digest_sentinel_iff [scored "c" 6; scored "e" 0]))
             Hall).
Defined.

(** X16. Selecting is idempotent: selecting from the selected items, or
    from the items already filtered by the cutoff, gives the same list, and
    the digest of the selected items is the digest of all. *)
Theorem relevant_tweets_idempotent (analyses : list Analysis) :
  relevant_tweets (relevant_tweets analyses) = relevant_tweets analyses
  ∧ relevant_tweets (List.filter (λ a, score a >=? 7) analyses)
    = relevant_tweets analyses
  ∧ generate_digest (relevant_tweets analyses) = generate_digest analyses.
Proof.
  assert (Hidem : relevant_tweets (relevant_tweets analyses) = relevant_tweets analyses).
  { apply relevant_tweets_of_relevant.
    - apply Forall_forall. intros a Ha. by apply relevant_tweets_elem in Ha as [_ ?].
    - apply sorted_reverse_sorted. }
  split; [exact Hidem|]. split.
  - unfold relevant_tweets. f_equal. apply list_filter_all.
    apply Forall_forall. intros a Ha. apply list_elem_of_In in Ha.
    by apply filter_In in Ha as [_ ?].
  - unfold generate_digest. by rewrite Hidem.
Qed.

(** X17. For an item of score 7 or more the digest shows the heading with
    the author and the score, the tweet's text, and the link to
    [twitter.com/<author>/status/<id>]. *)
Theorem generate_digest_shows_score_and_permalink (analyses : list Analysis)
    (t : Tweet) (reply : string) :
  analysis_of_reply t reply ∈ analyses →
  7 ≤ extract_score reply →
  occurs_in ("## @" +:+ screen_name (user t) +:+ ": "
             +:+ pretty (extract_score reply) +:+ "/10 Relevance")
    (generate_digest analyses)
  ∧ occurs_in (full_text t) (generate_digest analyses)
  ∧ occurs_in ("[View Tweet](https://twitter.com/" +:+ screen_name (user t)
               +:+ "/status/" +:+ id_str t +:+ ")")
      (generate_digest analyses).
Proof.
  intros Hin H7.
  assert (Hsection : occurs_in (digest_section (analysis_of_reply t reply))
                       (generate_digest analyses)).
  { assert (Hrel : analysis_of_reply t reply ∈ relevant_tweets analyses)
      by by apply relevant_tweets_elem.
    rewrite generate_digest_render. unfold render_digest.
    destruct (relevant_tweets analyses) as [|b items] eqn:E.
    { by apply elem_of_nil in Hrel. }
    apply occurs_in_app_r. by apply render_sections_occurs. }
  unfold digest_section in Hsection.
  cbn [tweet score tweet_url analysis_of_reply] in Hsection.
  repeat split; (eapply occurs_in_trans; [|exact Hsection]).
  - exists EmptyString. eexists. rewrite append_empty_l.
    by rewrite !append_assoc.
  - apply occurs_in_app_r, occurs_in_app_l, occurs_in_app_l, occurs_in_refl.
  - apply occurs_in_app_r, occurs_in_app_r, occurs_in_app_l.
    eexists EmptyString, _. rewrite append_empty_l.
    by repeat (rewrite ?append_assoc, ?append_cons, ?append_empty_l).
Qed.

Lemma generate_digest_shows_score_and_permalink_witness :
  occurs_in "## @ada: 8/10 Relevance"
    (generate_digest [analysis_of_reply sample_tweet "Score: 8/10"])
  ∧ occurs_in "[View Tweet](https://twitter.com/ada/status/1)"
      (generate_digest [analysis_of_reply sample_tweet "Score: 8/10"]).
Proof.
  destruct (generate_digest_shows_score_and_permalink
              [analysis_of_reply sample_tweet "Score: 8/10"] sample_tweet
              "Score: 8/10") as (Hscore & _ & Hlink).
  - apply list_elem_of_here.
  - vm_compute. discriminate.
  - split; [exact Hscore|exact Hlink].
Defined.

Section first_line_facts.
Implicit Types (s line rest label token : string) (c sep : ascii).

Lemma split_head_without sep s piece pieces :
  split sep s = piece :: pieces → mem_char sep piece = false.
Proof.
  revert piece pieces. induction s as [|c s IH]; intros piece pieces; simpl.
  - by intros [= <- <-].
  - destruct (Ascii.eqb c sep) eqn:E; [by intros [= <- <-]|].
    destruct (split sep s) as [|p ps]; [intros [= <- <-]; simpl; by rewrite E|].
    intros [= <- <-]. simpl. by rewrite E, (IH p ps).
Qed.

Lemma first_line_without_lf s : mem_char "010" (first_line s) = false.
Proof.
  unfold first_line. destruct (split_cons "010" s) as (line & lines & Hs).
  rewrite Hs. by eapply split_head_without.
Qed.

Lemma first_line_of_line line : mem_char "010" line = false → first_line line = line.
Proof. intros H. unfold first_line. by rewrite split_without. Qed.

Lemma first_line_app line rest :
  mem_char "010" line = false → first_line (line +:+ LF +:+ rest) = line.
Proof.
  intros H. unfold first_line, LF. rewrite append_cons, append_empty_l.
  by rewrite split_app_sep.
Qed.

Lemma extract_score_try_first_line s :
  extract_score_try s = extract_score_try (first_line s).
Proof.
  unfold extract_score_try. rewrite !getitem_first_line.
  by rewrite (first_line_of_line _ (first_line_without_lf s)).
Qed.

Lemma rstrip_without_space s :
  (∀ c, mem_char c s = true → is_space c = false) → rstrip s = s.
Proof.
  induction s as [|c s IH]; [done|]. intros Hs. simpl.
  rewrite IH.
  - destruct s; [|done]. rewrite (Hs c); [done|]. simpl. by rewrite Ascii.eqb_refl.
  - intros c' Hc'. apply Hs. simpl. rewrite Hc'. apply orb_true_r.
Qed.

Lemma rstrip_pretty (z : Z) : rstrip (pretty z) = pretty z.
Proof.
  apply rstrip_without_space. intros c Hc.
  apply pretty_Z_chars in Hc as [[d Hd]| ->]; [by eapply digit_not_space|done].
Qed.

Lemma pretty_Z_nonempty (z : Z) : ∃ c r, pretty z = String c r.
Proof.
  destruct z as [|p|p]; [by eexists _, _| |by eexists _, _].
  change (pretty (Z.pos p)) with (pretty_N_go (N.pos p) EmptyString).
  destruct (pretty_N_go_first (N.pos p) EmptyString) as (c & r & _ & -> & _); [done|].
  by eexists _, _.
Qed.

(** The first line reads [label], a colon and [token], and has no other
    colon and no slash after the colon. *)
Lemma extract_score_try_without_slash s label token :
  first_line s = label +:+ ":" +:+ token →
  mem_char ":" label = false → mem_char ":" token = false →
  mem_char "/" token = false →
  extract_score_try s = int (strip (rstrip token)).
Proof.
  intros Hline Hlabel Hcolon Hslash.
  unfold extract_score_try. rewrite getitem_first_line, Hline. simpl.
  rewrite append_cons, append_empty_l.
  rewrite strip_app_anchor by done.
  rewrite split_app_sep by by apply not_mem_char_lstrip.
  assert (Hr : mem_char ":" (rstrip token) = false).
  { destruct (mem_char ":" (rstrip token)) eqn:E; [|done].
    apply mem_char_rstrip in E. congruence. }
  rewrite (split_without _ _ Hr). simpl.
  assert (Hs : mem_char "/" (strip (rstrip token)) = false).
  { apply not_mem_char_strip. destruct (mem_char "/" (rstrip token)) eqn:E; [|done].
    apply mem_char_rstrip in E. congruence. }
  by rewrite (split_without _ _ Hs).
Qed.

Lemma strip_spaced_pretty (z : Z) :
  rstrip (String " " (pretty z)) = String " " (pretty z)
  ∧ strip (String " " (pretty z)) = pretty z.
Proof.
  assert (H1 : rstrip (String " " (pretty z)) = String " " (pretty z)).
  { simpl. rewrite rstrip_pretty.
    by destruct (pretty_Z_nonempty z) as (c & r & ->). }
  split; [exact H1|].
  unfold strip. simpl lstrip. by rewrite lstrip_pretty, rstrip_pretty.
Qed.
End first_line_facts.

(** X18. Only the first line of a reply is read: the score of a reply is
    the score of its first line, whatever follows the first line feed. *)
Theorem extract_score_reads_first_line_only (reply : string) :
  extract_score reply = extract_score (first_line reply)
  ∧ ∀ line rest,
      reply = line +:+ LF +:+ rest → mem_char "010" line = false →
      extract_score reply = extract_score line.
Proof.
  assert (Hfirst : extract_score reply = extract_score (first_line reply)).
  { unfold extract_score. by rewrite extract_score_try_first_line. }
  split; [exact Hfirst|].
  intros line rest -> Hline. by rewrite Hfirst, first_line_app.
Qed.

Lemma extract_score_reads_first_line_only_witness :
  mem_char "010" "Score: 9/10" = false
  ∧ extract_score ("Score: 9/10" +:+ LF +:+ "Score: 2/10") = extract_score "Score: 9/10".
Proof.
  split; [reflexivity|].
  apply (proj2 (extract_score_reads_first_line_only
                  ("Score: 9/10" +:+ LF +:+ "Score: 2/10"))
           "Score: 9/10" "Score: 2/10"); reflexivity.
Defined.

(** X19. The denominator is optional and ignored: a first line
    [label: z] scores [z], and so does [label: z/...] whatever follows the
    slash. *)
Theorem extract_score_ignores_denominator (reply label : string) (z : Z) :
  mem_char ":" label = false →
  Z.abs z < 10 ^ Z.of_nat int_max_str_digits →
  (first_line reply = label +:+ ": " +:+ pretty z → extract_score reply = z)
  ∧ (∀ rest, first_line reply = label +:+ ": " +:+ pretty z +:+ "/" +:+ rest →
             extract_score reply = z).
Proof.
  intros Hlabel Hz.
  assert (Hcolon : mem_char ":" (String " " (pretty z)) = false).
  { simpl. by rewrite pretty_Z_without. }
  assert (Hslash : mem_char "/" (String " " (pretty z)) = false).
  { simpl. by rewrite pretty_Z_without. }
  destruct (strip_spaced_pretty z) as [Hr Hs].
  split.
  - intros Hline. unfold extract_score.
    rewrite (extract_score_try_without_slash reply label (String " " (pretty z)));
      [|by rewrite Hline, !append_cons, !append_empty_l|done..].
    by rewrite Hr, Hs, int_pretty.
  - intros rest Hline. unfold extract_score.
    rewrite (extract_score_try_token reply label (String " " (pretty z)) rest).
    + simpl lstrip. by rewrite lstrip_pretty, int_pretty.
    + split; [|done].
      rewrite Hline. by repeat (rewrite append_cons || rewrite append_empty_l).
Qed.

Lemma extract_score_ignores_denominator_witness :
  mem_char ":" "Score" = false
  ∧ Z.abs 8 < 10 ^ Z.of_nat int_max_str_digits
  ∧ extract_score "Score: 8" = 8
  ∧ extract_score "Score: 8/5 (out of five: high)" = 8.
Proof.
  assert (Hz : Z.abs 8 < 10 ^ Z.of_nat int_max_str_digits) by (vm_compute; reflexivity).
  split; [reflexivity|]. split; [exact Hz|]. split.
  - apply (proj1 (extract_score_ignores_denominator "Score: 8" "Score" 8
                    eq_refl Hz)).
    vm_compute. reflexivity.
  - apply (proj2 (extract_score_ignores_denominator
                    "Score: 8/5 (out of five: high)" "Score" 8 eq_refl Hz)
             "5 (out of five: high)").
    vm_compute. reflexivity.
Defined.

(** X14. When the request to the source API raises, the tweets file of an
    earlier run stays and the run scores those old tweets again and posts
    their digest, as a read in text mode gives it. *)
Theorem unreachable_source_rescans_old_tweets (env : Env) (w : World) (e : Exn)
    (data : string) (tweets : list Tweet) (reply : nat → Tweet → string) :
  source_api env = Raise e →
  files w !! "tweets_for_analysis.json" = Some data →
  json_load env (universal_newlines data) = Ok tweets →
  (∀ n t, chat env n t = Ok (reply n t)) →
  files (run_full_workflow env w).2 !! "tweets_for_analysis.json" = Some data
  ∧ posted (run_full_workflow env w).2
    = posted w
      ++ [discord_payload
            (universal_newlines
               (generate_digest (analyses_of reply (completions w) tweets)))].
Proof.
  intros Hget Hfile Hload Hchat.
  assert (Hfetch : ∀ w0, fetch_tweets_main env w0 = (Raise e, w0)).
  { intros w0. rewrite fetch_tweets_main_run.
    unfold fetch_list_tweets, lift. by rewrite bind_run, Hget. }
  assert (Hstart : files (scoring_start env w) = files w).
  { destruct (scoring_start_frame env w) as [-> _]. by rewrite Hfetch. }
  assert (Hscores : (score_tweets env (scoring_start env w)).1
                    = Ok (analyses_of reply (completions w) tweets)).
  { rewrite score_tweets_run, Hstart, Hfile, Hload.
    rewrite (mapM_analyze_total env reply _ _ Hchat).
    cbn [completions printed].
    by destruct (scoring_start_frame env w) as [_ ->]. }
  split; [|by apply run_full_workflow_scored].
  destruct (run_full_workflow_effect env w) as (_ & -> & _).
  unfold after_scoring. rewrite analyze_tweets_main_run.
  pose proof (preserves_files_score_tweets env (scoring_start env w)) as Hf.
  destruct (score_tweets env (scoring_start env w)) as [[analyses|e'] w'];
    [|done].
  cbn [snd files printed written] in *.
  by rewrite lookup_insert_ne, Hf, Hstart.
Qed.

Lemma unreachable_source_rescans_old_tweets_witness :
  posted (run_full_workflow (unreachable_env "Score: 8/10" [sample_tweet])
            stale_world).2
  = [discord_payload
       (generate_digest [analysis_of_reply sample_tweet "Score: 8/10"])].
Proof.
  exact (proj2 (unreachable_source_rescans_old_tweets
                  (unreachable_env "Score: 8/10" [sample_tweet]) stale_world
                  RequestException "[yesterday's tweets]" [sample_tweet]
                  (λ _ _, "Score: 8/10") eq_refl eq_refl eq_refl
                  (λ _ _, eq_refl))).
Defined.

